(** * Metadata extraction and filtering (get-metadata.js)

    A shallow embedding of the two exported functions of the repository,
    [getMetadata] and [filterMetadata], together with the part of the
    JavaScript runtime they rest on: strings, the regular expressions of the
    source and the string and array methods called on them.

    Strings are sequences of code units.  A code unit is an [ascii], read as
    the Latin-1 range U+0000..U+00FF of JavaScript's UTF-16 code units; the
    character predicates below ([toLowerCase], [\s], [.], the [i] flag) are
    the ECMAScript ones restricted to that range. *)

From Stdlib Require Import Bool Arith Lia List ZArith Ascii String.
Import ListNotations.
Open Scope list_scope.
Open Scope string_scope.

(** ** Code units *)

Definition code (c : ascii) : nat := nat_of_ascii c.

Definition in_range (lo hi : nat) (c : ascii) : bool :=
  Nat.leb lo (code c) && Nat.leb (code c) hi.

Definition dquote : ascii := "034"%char.
Definition LF : ascii := "010"%char.
Definition CR : ascii := "013"%char.

(** Source text is quoted here with single quotes where JavaScript has double
    quotes; [qq] puts the double quotes back. *)
Fixpoint qq (s : string) : string :=
  match s with
  | EmptyString => EmptyString
  | String c s' => String (if Ascii.eqb c "'" then dquote else c) (qq s')
  end.

(** LineTerminator: U+000A, U+000D (U+2028 and U+2029 lie outside the range). *)
Definition is_line_terminator (c : ascii) : bool :=
  Ascii.eqb c LF || Ascii.eqb c CR.

(** [\s]: WhiteSpace and LineTerminator: TAB, LF, VT, FF, CR, SP, NBSP. *)
Definition is_whitespace (c : ascii) : bool :=
  in_range 9 13 c || Nat.eqb (code c) 32 || Nat.eqb (code c) 160.

(** One code unit of [String.prototype.toLowerCase]: A-Z, and the Latin-1
    capitals U+00C0..U+00DE except the multiplication sign U+00D7. *)
Definition lower_char (c : ascii) : ascii :=
  if in_range 65 90 c || (in_range 192 222 c && negb (Nat.eqb (code c) 215))
  then ascii_of_nat (code c + 32)
  else c.

(** Canonicalize of the [i] flag (no [u] flag): the upper-case code unit.
    U+00B5, U+00DF and U+00FF have no upper case inside the range and no
    other code unit of the range shares theirs, so they stay. *)
Definition upper_char (c : ascii) : ascii :=
  if in_range 97 122 c || (in_range 224 254 c && negb (Nat.eqb (code c) 247))
  then ascii_of_nat (code c - 32)
  else c.

Definition canonicalize (ignoreCase : bool) (c : ascii) : ascii :=
  if ignoreCase then upper_char c else c.

Fixpoint toLowerCase (s : string) : string :=
  match s with
  | EmptyString => EmptyString
  | String c s' => String (lower_char c) (toLowerCase s')
  end.

(** ** Regular expressions

    The fragment of the pattern language the source uses: characters, [.],
    [\s], a character class, sequence, alternative, greedy and lazy star,
    greedy [?] and one capture group. *)

Inductive regex : Type :=
| Empty
| Chr (c : ascii)
| Dot
| Space
| Class (cs : list ascii)
| Seq (r1 r2 : regex)
| Alt (r1 r2 : regex)
| Star (r : regex)
| StarLazy (r : regex)
| Opt (r : regex)
| Group (r : regex).

Record RegExp : Type := mkRegExp {
  source : regex;
  ignoreCase : bool;
  global : bool
}.

Fixpoint lit (s : string) : regex :=
  match s with
  | EmptyString => Empty
  | String c EmptyString => Chr c
  | String c s' => Seq (Chr c) (lit s')
  end.

Fixpoint seq_of (rs : list regex) : regex :=
  match rs with
  | [] => Empty
  | [r] => r
  | r :: rs' => Seq r (seq_of rs')
  end.

Fixpoint has_group (r : regex) : bool :=
  match r with
  | Group _ => true
  | Seq r1 r2 | Alt r1 r2 => has_group r1 || has_group r2
  | Star r' | StarLazy r' | Opt r' => has_group r'
  | _ => false
  end.

(** A match state is the rest of the input and the value of capture 1
    ([None] is undefined).  The matcher is the backtracking one of the
    language definition, in continuation-passing style: [k] is what follows
    the pattern, and the first alternative that lets [k] succeed wins. *)

Definition mresult : Type := string * option string.
Definition mcont : Type := string -> option string -> option mresult.

Definition accept : mcont := fun s cap => Some (s, cap).

Definition single (p : ascii -> bool) (s : string) (cap : option string)
  (k : mcont) : option mresult :=
  match s with
  | String x s' => if p x then k s' cap else None
  | EmptyString => None
  end.

Definition or_else {A : Type} (a b : option A) : option A :=
  match a with
  | Some x => Some x
  | None => b
  end.

(** An iteration of a quantified atom starts with the atom's captures
    undefined, and an iteration that consumes nothing is rejected. *)
Definition reset (r : regex) (cap : option string) : option string :=
  if has_group r then None else cap.

Definition progress (s : string) (k : mcont) : mcont :=
  fun s1 cap1 =>
    if Nat.ltb (String.length s1) (String.length s) then k s1 cap1 else None.

Definition matches_char (ic : bool) (c x : ascii) : bool :=
  Ascii.eqb (canonicalize ic x) (canonicalize ic c).

(** The iterations of [r*] and [r*?]: [step] matches the quantified atom
    once.  An iteration consumes at least one code unit, so the length of the
    input bounds their number. *)

Definition matcher : Type := string -> option string -> mcont -> option mresult.

Fixpoint repeat_greedy (step : matcher) (k : mcont) (fuel : nat)
  (s : string) (cap : option string) {struct fuel} : option mresult :=
  match fuel with
  | 0 => k s cap
  | S fuel' =>
      or_else (step s cap (progress s (repeat_greedy step k fuel'))) (k s cap)
  end.

Fixpoint repeat_lazy (step : matcher) (k : mcont) (fuel : nat)
  (s : string) (cap : option string) {struct fuel} : option mresult :=
  match fuel with
  | 0 => k s cap
  | S fuel' =>
      or_else (k s cap) (step s cap (progress s (repeat_lazy step k fuel')))
  end.

Fixpoint rmatch (ic : bool) (r : regex) (s : string) (cap : option string)
  (k : mcont) {struct r} : option mresult :=
  match r with
  | Empty => k s cap
  | Chr c => single (matches_char ic c) s cap k
  | Dot => single (fun x => negb (is_line_terminator x)) s cap k
  | Space => single is_whitespace s cap k
  | Class cs => single (fun x => existsb (fun c => matches_char ic c x) cs) s cap k
  | Seq r1 r2 => rmatch ic r1 s cap (fun s1 cap1 => rmatch ic r2 s1 cap1 k)
  | Alt r1 r2 => or_else (rmatch ic r1 s cap k) (rmatch ic r2 s cap k)
  | Star r1 =>
      repeat_greedy
        (fun s0 cap0 k0 => rmatch ic r1 s0 (reset r1 cap0) k0)
        k (String.length s) s cap
  | StarLazy r1 =>
      repeat_lazy
        (fun s0 cap0 k0 => rmatch ic r1 s0 (reset r1 cap0) k0)
        k (String.length s) s cap
  | Opt r1 =>
      or_else (rmatch ic r1 s (reset r1 cap) (progress s k)) (k s cap)
  | Group r1 =>
      rmatch ic r1 s cap
        (fun s1 _ =>
           k s1 (Some (substring 0 (String.length s - String.length s1) s)))
  end.

(** The pattern tried at the start of [s]: the rest of the input after the
    match and capture 1. *)
Definition match_at (re : RegExp) (s : string) : option mresult :=
  rmatch (ignoreCase re) (source re) s None accept.

Definition consumed (s rest : string) : nat :=
  String.length s - String.length rest.

(** ** [RegExp.prototype.exec] for a pattern without the [g] and [y] flags:
    the leftmost start index at which the pattern matches. *)

Record MatchResult : Type := mkMatch {
  index : nat;
  matched : string;
  group1 : option string
}.

Fixpoint exec_at (re : RegExp) (i : nat) (s : string) : option MatchResult :=
  match match_at re s with
  | Some (rest, cap) =>
      Some (mkMatch i (substring 0 (consumed s rest) s) cap)
  | None =>
      match s with
      | String _ s' => exec_at re (S i) s'
      | EmptyString => None
      end
  end.

Definition RegExp_exec (re : RegExp) (s : string) : option MatchResult :=
  exec_at re 0 s.

(** ** [String.prototype.replace] with a pattern and a replacement text that
    has no [$] in it.  [skip] counts the code units of the current match that
    are still to be passed over. *)

Fixpoint replace_all (re : RegExp) (rep : string) (skip : nat) (s : string)
  : string :=
  match skip with
  | S n =>
      match s with
      | String _ s' => replace_all re rep n s'
      | EmptyString => EmptyString
      end
  | 0 =>
      match match_at re s with
      | Some (rest, _) =>
          match s with
          | EmptyString => rep
          | String c s' =>
              match consumed s rest with
              | S n => rep ++ replace_all re rep n s'
              | 0 => rep ++ String c (replace_all re rep 0 s')
              end
          end
      | None =>
          match s with
          | String c s' => String c (replace_all re rep 0 s')
          | EmptyString => EmptyString
          end
      end
  end.

Fixpoint replace_first (re : RegExp) (rep : string) (s : string) : string :=
  match match_at re s with
  | Some (rest, _) => rep ++ rest
  | None =>
      match s with
      | String c s' => String c (replace_first re rep s')
      | EmptyString => EmptyString
      end
  end.

Definition String_replace (s : string) (re : RegExp) (rep : string) : string :=
  if global re then replace_all re rep 0 s else replace_first re rep s.

(** ** [String.prototype.match] with a [g] pattern: every match in turn, or
    null ([None]) when there is none. *)

Fixpoint matches_from (re : RegExp) (skip : nat) (s : string) : list string :=
  match skip with
  | S n =>
      match s with
      | String _ s' => matches_from re n s'
      | EmptyString => []
      end
  | 0 =>
      match match_at re s with
      | Some (rest, _) =>
          substring 0 (consumed s rest) s ::
          match s with
          | String _ s' => matches_from re (pred (consumed s rest)) s'
          | EmptyString => []
          end
      | None =>
          match s with
          | String _ s' => matches_from re 0 s'
          | EmptyString => []
          end
      end
  end.

Definition String_match (s : string) (re : RegExp) : option (list string) :=
  match matches_from re 0 s with
  | [] => None
  | l => Some l
  end.

(** ** [String.prototype.split]

    With a pattern (no capture group, no limit): [cur] is the piece being
    collected, from the end of the last separator to the current index. *)

Fixpoint split_re_from (re : RegExp) (cur : string) (skip : nat) (s : string)
  : list string :=
  match s with
  | EmptyString => [cur]
  | String c s' =>
      match skip with
      | S n => split_re_from re cur n s'
      | 0 =>
          match match_at re s with
          | Some (rest, _) =>
              match consumed s rest with
              | S n => cur :: split_re_from re EmptyString n s'
              | 0 =>
                  if String.eqb cur EmptyString
                  then split_re_from re (String c EmptyString) 0 s'
                  else cur :: split_re_from re (String c EmptyString) 0 s'
              end
          | None => split_re_from re (cur ++ String c EmptyString) 0 s'
          end
      end
  end.

Definition String_split_re (s : string) (re : RegExp) : list string :=
  match s with
  | EmptyString =>
      match match_at re EmptyString with
      | Some _ => []
      | None => [EmptyString]
      end
  | _ => split_re_from re EmptyString 0 s
  end.

(** With a separator string. *)

Fixpoint split_str_from (sep : string) (cur : string) (skip : nat) (s : string)
  : list string :=
  match s with
  | EmptyString => [cur]
  | String c s' =>
      match skip with
      | S n => split_str_from sep cur n s'
      | 0 =>
          if prefix sep s
          then cur :: split_str_from sep EmptyString (pred (String.length sep)) s'
          else split_str_from sep (cur ++ String c EmptyString) 0 s'
      end
  end.

Fixpoint chars (s : string) : list string :=
  match s with
  | EmptyString => []
  | String c s' => String c EmptyString :: chars s'
  end.

Definition String_split (s : string) (sep : string) : list string :=
  match sep with
  | EmptyString => chars s
  | _ => split_str_from sep EmptyString 0 s
  end.

(** ** [String.prototype.includes] *)

Fixpoint String_includes (s : string) (t : string) : bool :=
  prefix t s ||
  match s with
  | String _ s' => String_includes s' t
  | EmptyString => false
  end.

(** ** [Array.prototype.join] on an array of strings *)

Definition Array_join (l : list string) (sep : string) : string :=
  String.concat sep l.

(** ** Values

    The arguments of the two exported functions are arbitrary values; what
    the source observes of them is their truthiness, their [typeof] and
    [Array.isArray]. *)

Record Metadata : Type := mkMetadata {
  url : option string;
  siteName : option string;
  title : option string;
  description : option string;
  keywords : option (list string);
  author : option string
}.

Inductive value : Type :=
| VUndefined
| VNull
| VBool (b : bool)
| VNumber (n : Z)        (* a number; only zero or not, and typeof, are observed *)
| VString (s : string)
| VArray (l : list Metadata)
| VObject.

Definition is_empty (s : string) : bool :=
  match s with
  | EmptyString => true
  | _ => false
  end.

Definition truthy (v : value) : bool :=
  match v with
  | VUndefined | VNull => false
  | VBool b => b
  | VNumber n => negb (Z.eqb n 0)
  | VString s => negb (is_empty s)
  | VArray _ | VObject => true
  end.

Definition typeof (v : value) : string :=
  match v with
  | VUndefined => "undefined"
  | VNull => "object"
  | VBool _ => "boolean"
  | VNumber _ => "number"
  | VString _ => "string"
  | VArray _ | VObject => "object"
  end.

Definition Array_isArray (v : value) : bool :=
  match v with
  | VArray _ => true
  | _ => false
  end.

(** ToString of a string or null. *)
Definition ToString (v : option string) : string :=
  match v with
  | Some s => s
  | None => "null"
  end.

(** [a || b] on a string or null: null and the empty string are falsy. *)
Definition or_string (a b : option string) : option string :=
  match a with
  | Some s => if is_empty s then b else a
  | None => b
  end.

(** [a || b] on an array or undefined: every array is truthy. *)
Definition or_array (a b : option (list string)) : option (list string) :=
  match a with
  | Some l => Some l
  | None => b
  end.

(** ** get-metadata.js, first module: extraction *)

(** The patterns of the source, each with the [i] flag and without [g]; in
    the comments a single quote stands for the double quote of the source. *)

Module NODES_REG_EXPS.

(** [/<head>(.*?)<\/head>/i] *)
Definition head : RegExp :=
  mkRegExp
    (seq_of [lit "<head>"; Group (StarLazy Dot); lit "</head>"])
    true false.

(** [/<title>(.*?)<\/title>/i] *)
Definition title : RegExp :=
  mkRegExp
    (seq_of [lit "<title>"; Group (StarLazy Dot); lit "</title>"])
    true false.

(** [/<meta\s*property='og:url'\s*content='(.*?)'\s*\/?>/i] *)
Definition url : RegExp :=
  mkRegExp
    (seq_of [lit "<meta"; Star Space; lit (qq "property='og:url'");
             Star Space; lit (qq "content='"); Group (StarLazy Dot);
             lit (qq "'"); Star Space; Opt (Chr "/"); lit ">"])
    true false.

(** [/<meta\s*property='og:site_name'\s*content='(.*?)'\s*\/?>/i] *)
Definition siteName : RegExp :=
  mkRegExp
    (seq_of [lit "<meta"; Star Space; lit (qq "property='og:site_name'");
             Star Space; lit (qq "content='"); Group (StarLazy Dot);
             lit (qq "'"); Star Space; Opt (Chr "/"); lit ">"])
    true false.

(** [/<meta\s*property='og:description'\s*content='(.*?)'\s*\/?>/i] *)
Definition description : RegExp :=
  mkRegExp
    (seq_of [lit "<meta"; Star Space; lit (qq "property='og:description'");
             Star Space; lit (qq "content='"); Group (StarLazy Dot);
             lit (qq "'"); Star Space; Opt (Chr "/"); lit ">"])
    true false.

(** [/<meta\s*name='description'\s*content='(.*?)'\s*\/?>/i] *)
Definition description2 : RegExp :=
  mkRegExp
    (seq_of [lit "<meta"; Star Space; lit (qq "name='description'");
             Star Space; lit (qq "content='"); Group (StarLazy Dot);
             lit (qq "'"); Star Space; Opt (Chr "/"); lit ">"])
    true false.

(** [/<meta\s*name='keywords'\s*content='(.*?)'\s*\/?>/i] *)
Definition keywords : RegExp :=
  mkRegExp
    (seq_of [lit "<meta"; Star Space; lit (qq "name='keywords'");
             Star Space; lit (qq "content='"); Group (StarLazy Dot);
             lit (qq "'"); Star Space; Opt (Chr "/"); lit ">"])
    true false.

(** [/<meta\s*name='author'\s*content='(.*?)'\s*\/?>/i] *)
Definition author : RegExp :=
  mkRegExp
    (seq_of [lit "<meta"; Star Space; lit (qq "name='author'");
             Star Space; lit (qq "content='"); Group (StarLazy Dot);
             lit (qq "'"); Star Space; Opt (Chr "/"); lit ">"])
    true false.

End NODES_REG_EXPS.

(** [/\r?\n|\r/g] *)
Definition NEWLINE_REGEXP : RegExp :=
  mkRegExp (Alt (Seq (Opt (Chr CR)) (Chr LF)) (Chr CR)) false true.

(** [result ? result[1] : null].  The argument is a string or null; [exec]
    applies ToString to it.  In every pattern of [NODES_REG_EXPS] the group
    lies on the only path through the pattern, so [result[1]] is a string
    whenever there is a result (lemma [node_patterns_group1] below). *)
Definition getNodeValue (html : option string) (node : RegExp) : option string :=
  match RegExp_exec node (ToString html) with
  | Some result => group1 result
  | None => None
  end.

Definition absentMetadata : Metadata :=
  mkMetadata None None None None None None.

Definition getMetadata (html : value) : Metadata :=
  if negb (truthy html) || negb (String.eqb (typeof html) "string")
  then absentMetadata
  else
    match html with
    | VString html =>
        let flatHtml := String_replace html NEWLINE_REGEXP " " in
        let head := getNodeValue (Some flatHtml) NODES_REG_EXPS.head in
        {| url := getNodeValue head NODES_REG_EXPS.url;
           siteName := getNodeValue head NODES_REG_EXPS.siteName;
           title := getNodeValue head NODES_REG_EXPS.title;
           description :=
             or_string
               (getNodeValue head NODES_REG_EXPS.description)
               (getNodeValue head NODES_REG_EXPS.description2);
           keywords :=
             or_array
               (option_map
                  (fun v =>
                     filter (fun keyword => negb (is_empty keyword))
                       (String_split v ","))
                  (getNodeValue head NODES_REG_EXPS.keywords))
               None;
           author := getNodeValue head NODES_REG_EXPS.author |}
    | _ => absentMetadata
    end.

(** ** get-metadata.js, second module: filtering *)

(** [/[@#$%^&*_=+.,-]/g] *)
Definition SPECIAL_CHARS_REGEXP : RegExp :=
  mkRegExp
    (Class ["@"; "#"; "$"; "%"; "^"; "&"; "*"; "_"; "="; "+"; "."; ","; "-"]%char)
    false true.

Definition handleSpecialChars (word : string) : list string :=
  match String_match word SPECIAL_CHARS_REGEXP with
  | None => [word]
  | Some _ =>
      let splittedBySpecialChars := String_split_re word SPECIAL_CHARS_REGEXP in
      let specialCharsRemoved := String_replace word SPECIAL_CHARS_REGEXP EmptyString in
      splittedBySpecialChars ++ [specialCharsRemoved; word]
  end%list.

Definition getQueryArray (query : string) : list string :=
  filter (fun word => Nat.ltb 1 (String.length word))
    (fold_left
       (fun words currentWord => (words ++ handleSpecialChars currentWord)%list)
       (String_split query " ") []).

(** [Object.values(metadata)]: the six own properties in creation order; an
    element is a string, an array of strings or null. *)
Inductive element : Type :=
| EString (s : string)
| EArray (l : list string)
| ENull.

Definition of_string (v : option string) : element :=
  match v with
  | Some s => EString s
  | None => ENull
  end.

Definition of_array (v : option (list string)) : element :=
  match v with
  | Some l => EArray l
  | None => ENull
  end.

Definition Object_values (metadata : Metadata) : list element :=
  [of_string (url metadata); of_string (siteName metadata);
   of_string (title metadata); of_string (description metadata);
   of_array (keywords metadata); of_string (author metadata)].

(** What [join] writes for an element: undefined and null give the empty
    string, anything else its ToString, which for an array is its own
    [join(",")]. *)
Definition element_text (e : element) : string :=
  match e with
  | EString s => s
  | EArray l => Array_join l ","
  | ENull => EmptyString
  end.

Definition formatMetadataValues (metadata : Metadata) : string :=
  toLowerCase
    (String_replace
       (Array_join (map element_text (Object_values metadata)) " ")
       SPECIAL_CHARS_REGEXP EmptyString).

Definition doesMetadataMatch (metadata : Metadata) (query : list string) : bool :=
  let values := formatMetadataValues metadata in
  existsb (fun word => String_includes values (toLowerCase word)) query.

Definition filterMetadata (metadata query : value) : list Metadata :=
  if negb (truthy metadata) || negb (Array_isArray metadata)
     || negb (String.eqb (typeof query) "string")
  then []
  else
    match metadata, query with
    | VArray records, VString q =>
        if negb (truthy query) then records
        else
          let queryArray := getQueryArray q in
          filter (fun m => doesMetadataMatch m queryArray) records
    | _, _ => []
    end.

(** ** A sample document *)

Definition sample_html : string :=
  qq "<html>
<head>
<title>My
Page</title>
<meta property='og:url' content='http://x.y/'>
<meta property='og:site_name' content='Site' />
<meta name='description' content='Plain text'>
<meta name='keywords' content='cat,,dog,'>
<META NAME='author'   CONTENT='Ann'/>
</head></html>".

(** * Definitions used in the statements and proofs *)

(** ** Special characters, pieces and tokens, in the words of the
    specification *)

(** The fixed set [@ # $ % ^ & * _ = + . , -]. *)
Definition is_special (c : ascii) : bool :=
  existsb (Ascii.eqb c)
    ["@"; "#"; "$"; "%"; "^"; "&"; "*"; "_"; "="; "+"; "."; ","; "-"]%char.

Definition is_space (c : ascii) : bool := Ascii.eqb c " ".

Fixpoint contains_char (p : ascii -> bool) (s : string) : bool :=
  match s with
  | EmptyString => false
  | String c s' => p c || contains_char p s'
  end.

(** The string with every code unit in [p] stripped. *)
Fixpoint remove_chars (p : ascii -> bool) (s : string) : string :=
  match s with
  | EmptyString => EmptyString
  | String c s' => if p c then remove_chars p s' else String c (remove_chars p s')
  end.

(** The pieces of [s] between the occurrences of a code unit in [p]; a
    string with n occurrences has n + 1 pieces, some of them possibly empty. *)
Fixpoint split_on (p : ascii -> bool) (s : string) : list string :=
  match s with
  | EmptyString => [EmptyString]
  | String c s' =>
      if p c then EmptyString :: split_on p s'
      else
        match split_on p s' with
        | piece :: pieces => String c piece :: pieces
        | [] => [String c EmptyString]
        end
  end.

(** [cur] put before the first piece. *)
Definition push_front (cur : string) (pieces : list string) : list string :=
  match pieces with
  | piece :: pieces' => (cur ++ piece) :: pieces'
  | [] => [cur]
  end.

(** The candidate tokens of a word and of a query. *)
Definition expand_word (word : string) : list string :=
  if contains_char is_special word
  then (split_on is_special word ++ [remove_chars is_special word; word])%list
  else [word].

Definition candidate_tokens (query : string) : list string :=
  filter (fun token => Nat.ltb 1 (String.length token))
    (flat_map expand_word (split_on is_space query)).

(** ** The combined match string, in the words of the specification *)

(** The text of a field: an absent field has none. *)
Definition field_text (v : option string) : string :=
  match v with
  | Some s => s
  | None => EmptyString
  end.

Definition keywords_text (v : option (list string)) : string :=
  match v with
  | Some l => String.concat "," l
  | None => EmptyString
  end.

(** The six field values joined by single spaces, every special character
    stripped, in lower case. *)
Definition flattened (m : Metadata) : string :=
  toLowerCase
    (remove_chars is_special
       (field_text (url m) ++ " " ++ field_text (siteName m) ++ " " ++
        field_text (title m) ++ " " ++ field_text (description m) ++ " " ++
        keywords_text (keywords m) ++ " " ++ field_text (author m))).

(** [token] occurs in [text] up to case. *)
Definition ci_substring (token text : string) : Prop :=
  exists pre mid post,
    text = pre ++ mid ++ post /\ toLowerCase mid = toLowerCase token.

(** Some candidate token of the query occurs in the flattened record. *)
Definition record_matches (m : Metadata) (query : string) : Prop :=
  exists token,
    In token (candidate_tokens query) /\ ci_substring token (flattened m).

(** ** Line breaks and the head text *)

(** Every line-break sequence ([\r\n], [\r], [\n]) replaced by one space. *)
Fixpoint collapse_line_breaks (s : string) : string :=
  match s with
  | EmptyString => EmptyString
  | String c s' =>
      if Ascii.eqb c CR then
        match s' with
        | String d s'' =>
            if Ascii.eqb d LF
            then String " " (collapse_line_breaks s'')
            else String " " (collapse_line_breaks s')
        | EmptyString => String " " EmptyString
        end
      else if Ascii.eqb c LF then String " " (collapse_line_breaks s')
      else String c (collapse_line_breaks s')
  end.

(** The record [getMetadata] builds once the head text is known. *)
Definition fields_of_head (head : option string) : Metadata :=
  {| url := getNodeValue head NODES_REG_EXPS.url;
     siteName := getNodeValue head NODES_REG_EXPS.siteName;
     title := getNodeValue head NODES_REG_EXPS.title;
     description :=
       or_string
         (getNodeValue head NODES_REG_EXPS.description)
         (getNodeValue head NODES_REG_EXPS.description2);
     keywords :=
       or_array
         (option_map
            (fun v =>
               filter (fun keyword => negb (is_empty keyword))
                 (String_split v ","))
            (getNodeValue head NODES_REG_EXPS.keywords))
         None;
     author := getNodeValue head NODES_REG_EXPS.author |}.

(** The head text of a document. *)
Definition head_of (html : string) : option string :=
  getNodeValue (Some (collapse_line_breaks html)) NODES_REG_EXPS.head.

(** ** The matcher, for the proofs *)

(** Continuations that agree everywhere. *)
Definition cont_eq (k k' : mcont) : Prop := forall s cap, k s cap = k' s cap.

(** The predicate of an atom that matches one code unit. *)
Definition atom_pred (ic : bool) (r : regex) : option (ascii -> bool) :=
  match r with
  | Chr c => Some (matches_char ic c)
  | Dot => Some (fun x => negb (is_line_terminator x))
  | Space => Some is_whitespace
  | Class cs => Some (fun x => existsb (fun c => matches_char ic c x) cs)
  | _ => None
  end.

(** [p*] and [p*?] followed by [k], by recursion on the input. *)
Fixpoint star_greedy (p : ascii -> bool) (k : mcont) (s : string)
  (cap : option string) : option mresult :=
  match s with
  | String x s' =>
      if p x then or_else (star_greedy p k s' cap) (k s cap) else k s cap
  | EmptyString => k s cap
  end.

Fixpoint star_lazy (p : ascii -> bool) (k : mcont) (s : string)
  (cap : option string) : option mresult :=
  or_else (k s cap)
    match s with
    | String x s' => if p x then star_lazy p k s' cap else None
    | EmptyString => None
    end.

(** The matcher with the quantified atoms walked directly. *)
Fixpoint rmatch_direct (ic : bool) (r : regex) (s : string)
  (cap : option string) (k : mcont) {struct r} : option mresult :=
  match r with
  | Seq r1 r2 =>
      rmatch_direct ic r1 s cap (fun s1 cap1 => rmatch_direct ic r2 s1 cap1 k)
  | Alt r1 r2 =>
      or_else (rmatch_direct ic r1 s cap k) (rmatch_direct ic r2 s cap k)
  | Star r1 =>
      match atom_pred ic r1 with
      | Some p => star_greedy p k s cap
      | None => rmatch ic r s cap k
      end
  | StarLazy r1 =>
      match atom_pred ic r1 with
      | Some p => star_lazy p k s cap
      | None => rmatch ic r s cap k
      end
  | Opt r1 =>
      match atom_pred ic r1 with
      | Some p => or_else (single p s cap k) (k s cap)
      | None => rmatch ic r s cap k
      end
  | Group r1 =>
      rmatch_direct ic r1 s cap
        (fun s1 _ =>
           k s1 (Some (substring 0 (String.length s - String.length s1) s)))
  | _ => rmatch ic r s cap k
  end.

(** The rest of [s] after the literal [p], when [s] starts with it. *)
Fixpoint strip_prefix (ic : bool) (p s : string) : option string :=
  match p with
  | EmptyString => Some s
  | String c p' =>
      match s with
      | String x s' => if matches_char ic c x then strip_prefix ic p' s' else None
      | EmptyString => None
      end
  end.

(** [occurs ic p s]: the literal [p] occurs somewhere in [s]. *)
Fixpoint occurs (ic : bool) (p s : string) : bool :=
  match strip_prefix ic p s with
  | Some _ => true
  | None =>
      match s with
      | String _ s' => occurs ic p s'
      | EmptyString => false
      end
  end.

(** No capture group under a quantifier; the group lies on every path. *)
Fixpoint quantifiers_plain (r : regex) : bool :=
  match r with
  | Seq r1 r2 | Alt r1 r2 => quantifiers_plain r1 && quantifiers_plain r2
  | Star r1 | StarLazy r1 | Opt r1 => negb (has_group r1) && quantifiers_plain r1
  | Group r1 => quantifiers_plain r1
  | _ => true
  end.

Fixpoint sets_group (r : regex) : bool :=
  match r with
  | Group _ => true
  | Seq r1 r2 => sets_group r1 || sets_group r2
  | Alt r1 r2 => sets_group r1 && sets_group r2
  | _ => false
  end.

(** A matcher hands its continuation a defined capture when it was given
    one, and when [flag] says it sets one itself. *)
Definition passes_capture (flag : bool) (m : matcher) : Prop :=
  forall s cap k res,
    m s cap k = Some res ->
    exists s' cap',
      k s' cap' = Some res /\
      (flag = true -> cap' <> None) /\ (cap <> None -> cap' <> None).

(** The eight patterns of [NODES_REG_EXPS]. *)
Definition node_patterns : list RegExp :=
  [NODES_REG_EXPS.head; NODES_REG_EXPS.title; NODES_REG_EXPS.url;
   NODES_REG_EXPS.siteName; NODES_REG_EXPS.description;
   NODES_REG_EXPS.description2; NODES_REG_EXPS.keywords;
   NODES_REG_EXPS.author].

(** [k] fails at every non-empty suffix of [pre], continued by [rest]. *)
Fixpoint fails_along (k : mcont) (cap : option string) (pre rest : string)
  : Prop :=
  match pre with
  | EmptyString => True
  | String c pre' =>
      k (pre ++ rest) cap = None /\ fails_along k cap pre' rest
  end.

(** ** Sample documents *)

(** A document whose head holds one plain description tag, and that head. *)
Definition html_with_description (X : string) : string :=
  qq "<head><meta name='description' content='" ++ X ++ qq "'></head>".

Definition head_with_description (X : string) : string :=
  qq "<meta name='description' content='" ++ X ++ qq "'>".

(** A text free of line breaks, double quotes and [<]. *)
Definition plain_text (X : string) : bool :=
  negb (contains_char
          (fun c => is_line_terminator c || Ascii.eqb c dquote || Ascii.eqb c "<")
          X).

(** The same, decided. *)
Fixpoint fails_alongb (k : mcont) (cap : option string) (pre rest : string)
  : bool :=
  match pre with
  | EmptyString => true
  | String c pre' =>
      match k (pre ++ rest) cap with
      | None => fails_alongb k cap pre' rest
      | Some _ => false
      end
  end.

(** [s] does not start with a code unit in [p]. *)
Definition head_free (p : ascii -> bool) (s : string) : bool :=
  match s with
  | String c _ => negb (p c)
  | EmptyString => true
  end.

(** What follows the capture in the six meta patterns. *)
Definition meta_tail : regex :=
  seq_of [lit (qq "'"); Star Space; Opt (Chr "/"); lit ">"].

(** The field patterns other than description2. *)
Definition other_patterns : list RegExp :=
  [NODES_REG_EXPS.url; NODES_REG_EXPS.siteName; NODES_REG_EXPS.title;
   NODES_REG_EXPS.description; NODES_REG_EXPS.keywords;
   NODES_REG_EXPS.author].

(** A head whose og:description tag has an empty content, followed by a
    plain description tag. *)
Definition empty_og_description_html : string :=
  qq "<head><meta property='og:description' content=''><meta name='description' content='X'></head>".

(** A head element with an attribute whose content holds the text [<head>]. *)
Definition head_with_attribute_html : string :=
  qq "<head lang='en'><script>var s = '<head>';</script><title>T</title></head>".

(** ** Definitions for the further properties *)

Definition is_comma (c : ascii) : bool := Ascii.eqb c ",".

(** A value that is absent or holds no line break. *)
Definition single_line (v : option string) : Prop :=
  match v with
  | Some s => contains_char is_line_terminator s = false
  | None => True
  end.

(** The literal [p] starts at some index inside [pre], in [pre ++ rest]. *)
Fixpoint starts_within (ic : bool) (p pre rest : string) : bool :=
  match pre with
  | EmptyString => false
  | String c pre' =>
      match strip_prefix ic p (pre ++ rest) with
      | Some _ => true
      | None => starts_within ic p pre' rest
      end
  end.

(** Every capture group of the pattern is [(.*?)]. *)
Fixpoint groups_lazy_dot (r : regex) : bool :=
  match r with
  | Group (StarLazy Dot) => true
  | Group _ => false
  | Seq r1 r2 | Alt r1 r2 => groups_lazy_dot r1 && groups_lazy_dot r2
  | Star r1 | StarLazy r1 | Opt r1 => groups_lazy_dot r1
  | _ => true
  end.

(** A matcher keeps [Q] on the capture it hands to its continuation. *)
Definition keeps (Q : option string -> Prop) (m : matcher) : Prop :=
  forall s cap k res,
    Q cap -> m s cap k = Some res ->
    exists s' cap', Q cap' /\ k s' cap' = Some res.

(** A head with the six tags, one after the other, and the document around
    it. *)
Definition full_head (U S T D K A : string) : string :=
  qq "<meta property='og:url' content='" ++ U ++ qq "'>" ++
  qq "<meta property='og:site_name' content='" ++ S ++ qq "'>" ++
  "<title>" ++ T ++ "</title>" ++
  qq "<meta property='og:description' content='" ++ D ++ qq "'>" ++
  qq "<meta name='keywords' content='" ++ K ++ qq "'>" ++
  qq "<meta name='author' content='" ++ A ++ qq "'>".

Definition full_html (U S T D K A : string) : string :=
  "<head>" ++ full_head U S T D K A ++ "</head>".

(** A keyword that comes back from the keywords tag as it went in: plain
    text, not empty, without a comma. *)
Definition good_keyword (k : string) : bool :=
  plain_text k && negb (contains_char is_comma k) && negb (is_empty k).


(** A text of white space only. *)
Definition all_whitespace (ws : string) : bool :=
  negb (contains_char (fun c => negb (is_whitespace c)) ws).

(** The pattern matches at some index inside [pre], in [pre ++ rest]. *)
Fixpoint matches_within (re : RegExp) (pre rest : string) : bool :=
  match pre with
  | EmptyString => false
  | String c pre' =>
      match match_at re (pre ++ rest) with
      | Some _ => true
      | None => matches_within re pre' rest
      end
  end.

(** The six meta patterns, each with the attribute it asks for. *)
Definition meta_patterns : list (RegExp * string) :=
  [(NODES_REG_EXPS.url, qq "property='og:url'");
   (NODES_REG_EXPS.siteName, qq "property='og:site_name'");
   (NODES_REG_EXPS.description, qq "property='og:description'");
   (NODES_REG_EXPS.description2, qq "name='description'");
   (NODES_REG_EXPS.keywords, qq "name='keywords'");
   (NODES_REG_EXPS.author, qq "name='author'")].

(** * Properties *)

(** ** Strings *)

Lemma append_nil_r (s : string) : s ++ EmptyString = s.
Proof. induction s as [|c s IH]; simpl; congruence. Qed.

Lemma append_assoc (a b c : string) : (a ++ b) ++ c = a ++ (b ++ c).
Proof. induction a as [|x a IH]; simpl; congruence. Qed.

Lemma length_append (a b : string) :
  String.length (a ++ b) = String.length a + String.length b.
Proof. induction a as [|x a IH]; simpl; congruence. Qed.

Lemma append_snoc (a : string) (c : ascii) (b : string) :
  (a ++ String c EmptyString) ++ b = a ++ String c b.
Proof. rewrite append_assoc. reflexivity. Qed.

Lemma ltb_tail (c : ascii) (s : string) :
  Nat.ltb (String.length s) (String.length (String c s)) = true.
Proof. apply Nat.ltb_lt. simpl. lia. Qed.

Lemma consumed_tail (c : ascii) (s : string) : consumed (String c s) s = 1.
Proof. unfold consumed. cbn [String.length]. lia. Qed.

Lemma consumed_tail2 (c d : ascii) (s : string) :
  consumed (String c (String d s)) s = 2.
Proof. unfold consumed. cbn [String.length]. lia. Qed.

Lemma substring_0_append (a b : string) :
  substring 0 (String.length (a ++ b) - String.length b) (a ++ b) = a.
Proof.
  rewrite length_append.
  replace (String.length a + String.length b - String.length b)
    with (String.length a) by lia.
  induction a as [|x a IH]; simpl.
  - destruct b; reflexivity.
  - rewrite IH. reflexivity.
Qed.

Lemma prefix_append (t s : string) :
  prefix t s = true <-> exists post, s = t ++ post.
Proof.
  revert s. induction t as [|c t IH]; intros s.
  - destruct s; simpl; split; intros _; try reflexivity; eexists; reflexivity.
  - destruct s as [|x s]; simpl.
    + split; [discriminate | intros [post H]; discriminate].
    + destruct (ascii_dec c x) as [->|Hne].
      * rewrite IH. split; intros [post H]; exists post; congruence.
      * split; [discriminate | intros [post H]; congruence].
Qed.

(** [includes] is the substring test. *)
Lemma String_includes_spec (s t : string) :
  String_includes s t = true <-> exists pre post, s = pre ++ t ++ post.
Proof.
  induction s as [|c s IH]; cbn [String_includes].
  - rewrite orb_false_r. split.
    + intros H. apply prefix_append in H. destruct H as [post H].
      exists EmptyString, post. exact H.
    + intros [pre [post H]]. apply prefix_append.
      destruct pre; [exists post; exact H | discriminate].
  - rewrite orb_true_iff, IH. split.
    + intros [H | [pre [post H]]].
      * apply prefix_append in H. destruct H as [post H].
        exists EmptyString, post. exact H.
      * exists (String c pre), post. simpl. congruence.
    + intros [pre [post H]]. destruct pre as [|x pre].
      * left. apply prefix_append. exists post. exact H.
      * right. exists pre, post. simpl in H. congruence.
Qed.

(** ** The special characters, and the string methods at
    [SPECIAL_CHARS_REGEXP] and at the separator [" "] *)

Lemma split_on_cons (p : ascii -> bool) (s : string) :
  exists piece pieces, split_on p s = piece :: pieces.
Proof.
  induction s as [|c s [piece [pieces IH]]]; simpl.
  - eauto.
  - destruct (p c); [eauto | rewrite IH; eauto].
Qed.

Lemma split_on_not_special (p : ascii -> bool) (c : ascii) (s : string) :
  p c = false -> split_on p (String c s) = push_front (String c EmptyString) (split_on p s).
Proof.
  intros H. simpl. rewrite H.
  destruct (split_on_cons p s) as [piece [pieces ->]]. reflexivity.
Qed.

Lemma push_front_push_front (a b : string) (l : list string) :
  push_front a (push_front b l) = push_front (a ++ b) l.
Proof. destruct l; simpl; rewrite ?append_assoc; reflexivity. Qed.

Lemma push_front_nil (s : string) (p : ascii -> bool) :
  push_front EmptyString (split_on p s) = split_on p s.
Proof. destruct (split_on_cons p s) as [piece [pieces ->]]. reflexivity. Qed.

Lemma match_at_special (s : string) :
  match_at SPECIAL_CHARS_REGEXP s =
  match s with
  | String x s' => if is_special x then Some (s', None) else None
  | EmptyString => None
  end.
Proof. destruct s; reflexivity. Qed.

Lemma replace_special (s : string) :
  String_replace s SPECIAL_CHARS_REGEXP EmptyString = remove_chars is_special s.
Proof.
  unfold String_replace. cbn [global SPECIAL_CHARS_REGEXP].
  induction s as [|c s IH].
  - reflexivity.
  - cbn [replace_all]. rewrite match_at_special.
    destruct (is_special c) eqn:Hc; cbn [remove_chars]; rewrite Hc.
    + rewrite consumed_tail. cbn [replace_all append]. exact IH.
    + rewrite IH. reflexivity.
Qed.

Lemma split_re_special_from (cur s : string) :
  split_re_from SPECIAL_CHARS_REGEXP cur 0 s =
  push_front cur (split_on is_special s).
Proof.
  revert cur. induction s as [|c s IH]; intros cur.
  - simpl. rewrite append_nil_r. reflexivity.
  - cbn [split_re_from]. rewrite match_at_special.
    destruct (is_special c) eqn:Hc.
    + rewrite consumed_tail, IH, push_front_nil.
      cbn [split_on]. rewrite Hc. simpl. rewrite append_nil_r. reflexivity.
    + rewrite IH, (split_on_not_special _ _ s Hc), push_front_push_front.
      reflexivity.
Qed.

Lemma split_special (s : string) :
  String_split_re s SPECIAL_CHARS_REGEXP = split_on is_special s.
Proof.
  destruct s as [|c s].
  - reflexivity.
  - unfold String_split_re. rewrite split_re_special_from.
    apply push_front_nil.
Qed.

Lemma match_special (s : string) :
  String_match s SPECIAL_CHARS_REGEXP = None <->
  contains_char is_special s = false.
Proof.
  unfold String_match.
  assert (H : matches_from SPECIAL_CHARS_REGEXP 0 s = [] <->
              contains_char is_special s = false).
  { induction s as [|c s IH].
    - simpl. tauto.
    - cbn [matches_from contains_char]. rewrite match_at_special.
      destruct (is_special c); simpl.
      + split; discriminate.
      + exact IH. }
  destruct (matches_from SPECIAL_CHARS_REGEXP 0 s).
  - tauto.
  - split; [discriminate | intros Hc; apply H in Hc; discriminate].
Qed.

Lemma split_space_from (cur s : string) :
  split_str_from " " cur 0 s = push_front cur (split_on is_space s).
Proof.
  revert cur. induction s as [|c s IH]; intros cur.
  - simpl. rewrite append_nil_r. reflexivity.
  - cbn [split_str_from prefix String.length pred].
    unfold is_space at 1 in IH.
    destruct (ascii_dec " " c) as [<-|Hne].
    + assert (Hp : prefix EmptyString s = true) by (destruct s; reflexivity).
      rewrite Hp, IH, push_front_nil. simpl. rewrite append_nil_r. reflexivity.
    + assert (Hc : is_space c = false).
      { unfold is_space. apply Ascii.eqb_neq. congruence. }
      rewrite IH, (split_on_not_special _ _ s Hc), push_front_push_front.
      reflexivity.
Qed.

Lemma split_space (s : string) :
  String_split s " " = split_on is_space s.
Proof.
  unfold String_split. rewrite split_space_from. apply push_front_nil.
Qed.

(** What [split_on] means: the pieces hold no separator, the pieces put
    back around the separators are the string, and the pieces put together
    are the string with its separators stripped. *)

Lemma split_on_pieces_clean (p : ascii -> bool) (s piece : string) :
  In piece (split_on p s) -> contains_char p piece = false.
Proof.
  revert piece. induction s as [|c s IH]; intros piece; simpl.
  - intros [<-|[]]. reflexivity.
  - destruct (p c) eqn:Hc.
    + intros [<-|H]; [reflexivity | auto].
    + destruct (split_on_cons p s) as [h [t E]]. rewrite E in *.
      intros [<-|H].
      * simpl. rewrite Hc. apply IH. left. reflexivity.
      * apply IH. right. exact H.
Qed.

Lemma split_on_concat (p : ascii -> bool) (s : string) :
  String.concat EmptyString (split_on p s) = remove_chars p s.
Proof.
  induction s as [|c s IH]; simpl.
  - reflexivity.
  - destruct (split_on_cons p s) as [h [t E]]. rewrite E in *.
    destruct (p c).
    + exact IH.
    + rewrite <- IH. destruct t; reflexivity.
Qed.

Lemma split_on_join_space (s : string) :
  Array_join (split_on is_space s) " " = s.
Proof.
  unfold Array_join. induction s as [|c s IH]; simpl.
  - reflexivity.
  - destruct (split_on_cons is_space s) as [h [t E]]. rewrite E in *.
    destruct (is_space c) eqn:Hc.
    + apply Ascii.eqb_eq in Hc. subst c.
      change (String.concat " " (EmptyString :: h :: t))
        with (String " " (String.concat " " (h :: t))).
      rewrite IH. reflexivity.
    + destruct t; simpl in *; rewrite <- IH; reflexivity.
Qed.

Lemma split_on_length (p : ascii -> bool) (s : string) :
  List.length (split_on p s) =
  S (String.length s - String.length (remove_chars p s)).
Proof.
  assert (Hle : forall t, String.length (remove_chars p t) <= String.length t).
  { induction t as [|c t IH]; simpl; [lia|]. destruct (p c); simpl; lia. }
  induction s as [|c s IH]; cbn [split_on remove_chars].
  - reflexivity.
  - destruct (split_on_cons p s) as [h [t E]]. rewrite E in *.
    specialize (Hle s).
    destruct (p c); cbn [List.length String.length] in *; lia.
Qed.

Lemma fold_left_flat_map {A B : Type} (f : A -> list B) (l : list A)
  (acc : list B) :
  fold_left (fun words w => (words ++ f w)%list) l acc =
  (acc ++ flat_map f l)%list.
Proof.
  revert acc. induction l as [|x l IH]; intros acc; simpl.
  - rewrite app_nil_r. reflexivity.
  - rewrite IH, <- app_assoc. reflexivity.
Qed.

(** ** Tokenization meets its specification *)

Lemma handleSpecialChars_expand (word : string) :
  handleSpecialChars word = expand_word word.
Proof.
  unfold handleSpecialChars, expand_word.
  destruct (String_match word SPECIAL_CHARS_REGEXP) eqn:E.
  - destruct (contains_char is_special word) eqn:Hc.
    + rewrite split_special, replace_special. reflexivity.
    + apply match_special in Hc. congruence.
  - apply match_special in E. rewrite E. reflexivity.
Qed.

Lemma getQueryArray_tokens (query : string) :
  getQueryArray query = candidate_tokens query.
Proof.
  unfold getQueryArray, candidate_tokens.
  rewrite fold_left_flat_map, split_space. simpl. f_equal.
  induction (split_on is_space query) as [|w l IH]; simpl.
  - reflexivity.
  - rewrite handleSpecialChars_expand, IH. reflexivity.
Qed.

(** ** Lower case *)

Lemma lower_char_idem (c : ascii) : lower_char (lower_char c) = lower_char c.
Proof. destruct c as [[] [] [] [] [] [] [] []]; reflexivity. Qed.

Lemma lower_char_space (c : ascii) : lower_char c = " "%char -> c = " "%char.
Proof. destruct c as [[] [] [] [] [] [] [] []]; vm_compute; congruence. Qed.

Lemma toLowerCase_idem (s : string) : toLowerCase (toLowerCase s) = toLowerCase s.
Proof.
  induction s as [|c s IH]; simpl; [reflexivity|].
  rewrite lower_char_idem, IH. reflexivity.
Qed.

Lemma toLowerCase_append (a b : string) :
  toLowerCase (a ++ b) = toLowerCase a ++ toLowerCase b.
Proof. induction a as [|c a IH]; simpl; congruence. Qed.

Lemma length_toLowerCase (s : string) :
  String.length (toLowerCase s) = String.length s.
Proof. induction s as [|c s IH]; simpl; congruence. Qed.

Lemma append_inj (a a' b b' : string) :
  a ++ b = a' ++ b' -> String.length a = String.length a' ->
  a = a' /\ b = b'.
Proof.
  revert a'. induction a as [|c a IH]; intros [|c' a']; simpl;
    intros H L; try discriminate.
  - auto.
  - injection H as -> H. injection L as L.
    destruct (IH _ H L) as [-> ->]. auto.
Qed.

(** ** The combined match string meets its specification *)

Lemma formatMetadataValues_flattened (m : Metadata) :
  formatMetadataValues m = flattened m.
Proof.
  unfold formatMetadataValues, flattened. rewrite replace_special.
  destruct m as [u s t d k a].
  destruct u, s, t, d, k, a; reflexivity.
Qed.

Lemma includes_lower_ci (text token : string) :
  String_includes (toLowerCase text) (toLowerCase token) = true <->
  ci_substring token (toLowerCase text).
Proof.
  rewrite String_includes_spec. split.
  - intros [pre [post H]]. exists pre, (toLowerCase token), post.
    split; [exact H | apply toLowerCase_idem].
  - intros [pre [mid [post [H E]]]].
    exists pre, post. rewrite <- E.
    assert (Hl : toLowerCase (toLowerCase text) = toLowerCase text)
      by apply toLowerCase_idem.
    rewrite H in Hl at 1. rewrite !toLowerCase_append in Hl.
    rewrite H in Hl.
    apply append_inj in Hl; [|apply length_toLowerCase].
    destruct Hl as [_ Hl].
    apply append_inj in Hl; [|apply length_toLowerCase].
    destruct Hl as [Hm _]. rewrite Hm. exact H.
Qed.

Lemma doesMetadataMatch_spec (m : Metadata) (query : string) :
  doesMetadataMatch m (getQueryArray query) = true <-> record_matches m query.
Proof.
  unfold doesMetadataMatch, record_matches.
  rewrite existsb_exists, getQueryArray_tokens, formatMetadataValues_flattened.
  unfold flattened.
  split; intros [token [Hin H]]; exists token; (split; [exact Hin|]);
    apply includes_lower_ci; exact H.
Qed.

Lemma filterMetadata_query (records : list Metadata) (query : string) :
  query <> EmptyString ->
  filterMetadata (VArray records) (VString query) =
  filter (fun m => doesMetadataMatch m (getQueryArray query)) records.
Proof.
  intros H. unfold filterMetadata. simpl.
  destruct query; [congruence | reflexivity].
Qed.

(** ** Tokens hold no space *)

Lemma contains_char_remove (p q : ascii -> bool) (s : string) :
  contains_char p s = false -> contains_char p (remove_chars q s) = false.
Proof.
  induction s as [|c s IH]; simpl; [reflexivity|].
  intros H. apply orb_false_iff in H. destruct H as [Hc Hs].
  destruct (q c); simpl; [auto | rewrite Hc; auto].
Qed.

Lemma contains_char_piece (p q : ascii -> bool) (s piece : string) :
  contains_char p s = false -> In piece (split_on q s) ->
  contains_char p piece = false.
Proof.
  revert piece. induction s as [|c s IH]; intros piece; simpl.
  - intros _ [<-|[]]. reflexivity.
  - intros H. apply orb_false_iff in H. destruct H as [Hc Hs].
    destruct (q c).
    + intros [<-|Hin]; [reflexivity | auto].
    + destruct (split_on_cons q s) as [h [t E]]. rewrite E in *.
      intros [<-|Hin].
      * simpl. rewrite Hc. apply IH; [exact Hs | left; reflexivity].
      * apply IH; [exact Hs | right; exact Hin].
Qed.

Lemma candidate_tokens_shape (query token : string) :
  In token (candidate_tokens query) ->
  contains_char is_space token = false /\ 1 < String.length token.
Proof.
  unfold candidate_tokens. rewrite filter_In, in_flat_map.
  intros [[word [Hw Ht]] Hlen]. split; [|apply Nat.ltb_lt; exact Hlen].
  apply split_on_pieces_clean in Hw.
  unfold expand_word in Ht.
  destruct (contains_char is_special word).
  - apply in_app_or in Ht. destruct Ht as [Ht|[<-|[<-|[]]]].
    + eapply contains_char_piece; eauto.
    + apply contains_char_remove. exact Hw.
    + exact Hw.
  - destruct Ht as [<-|[]]. exact Hw.
Qed.

Lemma contains_char_append (p : ascii -> bool) (a b : string) :
  contains_char p (a ++ b) = contains_char p a || contains_char p b.
Proof.
  induction a as [|c a IH]; simpl; [reflexivity|].
  rewrite IH, orb_assoc. reflexivity.
Qed.

(** A text made of spaces only holds no token. *)
Lemma spaces_hold_no_token (text query token : string) :
  contains_char (fun c => negb (is_space c)) text = false ->
  In token (candidate_tokens query) ->
  String_includes text (toLowerCase token) = false.
Proof.
  intros Htext Hin.
  destruct (candidate_tokens_shape _ _ Hin) as [Hsp Hlen].
  destruct (String_includes text (toLowerCase token)) eqn:E; [|reflexivity].
  apply String_includes_spec in E. destruct E as [pre [post E]].
  rewrite E, !contains_char_append in Htext.
  apply orb_false_iff in Htext. destruct Htext as [_ Htext].
  apply orb_false_iff in Htext. destruct Htext as [Htext _].
  destruct token as [|c token]; [simpl in Hlen; lia|].
  simpl in Htext, Hsp.
  apply orb_false_iff in Htext. destruct Htext as [Hc _].
  apply orb_false_iff in Hsp. destruct Hsp as [Hc' _].
  apply negb_false_iff in Hc. unfold is_space in Hc, Hc'.
  apply Ascii.eqb_eq in Hc. apply lower_char_space in Hc.
  apply Ascii.eqb_neq in Hc'. contradiction.
Qed.

(** ** Line breaks *)

Lemma match_at_newline (s : string) :
  match_at NEWLINE_REGEXP s =
  match s with
  | EmptyString => None
  | String c s' =>
      if Ascii.eqb c CR then
        match s' with
        | String d s'' =>
            if Ascii.eqb d LF then Some (s'', None) else Some (s', None)
        | EmptyString => Some (s', None)
        end
      else if Ascii.eqb c LF then Some (s', None)
      else None
  end.
Proof.
  unfold match_at. cbn [ignoreCase source NEWLINE_REGEXP rmatch].
  unfold reset, progress. cbn [has_group].
  destruct s as [|c s']; [reflexivity|].
  unfold single at 1 4. unfold matches_char, canonicalize.
  destruct (Ascii.eqb c CR) eqn:Hc.
  - apply Ascii.eqb_eq in Hc. subst c. rewrite ltb_tail.
    destruct s' as [|d s'']; cbn [single or_else].
    + reflexivity.
    + destruct (Ascii.eqb d LF); reflexivity.
  - cbn [or_else single]. destruct (Ascii.eqb c LF); reflexivity.
Qed.

Lemma replace_newline_bounded (n : nat) (s : string) :
  String.length s <= n ->
  replace_all NEWLINE_REGEXP " " 0 s = collapse_line_breaks s.
Proof.
  revert s. induction n as [|n IH]; intros s Hn.
  - destruct s; [reflexivity | simpl in Hn; lia].
  - destruct s as [|c s']; [reflexivity|].
    cbn [replace_all collapse_line_breaks]. rewrite match_at_newline.
    cbn [String.length] in Hn.
    destruct (Ascii.eqb c CR).
    + destruct s' as [|d s''].
      * rewrite consumed_tail. reflexivity.
      * cbn [String.length] in Hn. destruct (Ascii.eqb d LF).
        -- rewrite consumed_tail2. cbn [replace_all append].
           rewrite IH by lia. reflexivity.
        -- rewrite consumed_tail. cbn [append].
           rewrite IH by (cbn [String.length]; lia). reflexivity.
    + destruct (Ascii.eqb c LF).
      * rewrite consumed_tail. cbn [append]. rewrite IH by lia. reflexivity.
      * rewrite IH by lia. reflexivity.
Qed.

Lemma replace_newline (s : string) :
  String_replace s NEWLINE_REGEXP " " = collapse_line_breaks s.
Proof.
  unfold String_replace. cbn [global NEWLINE_REGEXP].
  apply (replace_newline_bounded (String.length s)). lia.
Qed.

Lemma collapse_no_line_break_bounded (n : nat) (s : string) :
  String.length s <= n ->
  contains_char is_line_terminator (collapse_line_breaks s) = false.
Proof.
  revert s. induction n as [|n IH]; intros s Hn.
  - destruct s; [reflexivity | simpl in Hn; lia].
  - destruct s as [|c s']; [reflexivity|].
    cbn [collapse_line_breaks]. cbn [String.length] in Hn.
    destruct (Ascii.eqb c CR) eqn:Hcr.
    + destruct s' as [|d s'']; [reflexivity|].
      cbn [String.length] in Hn.
      destruct (Ascii.eqb d LF); cbn [contains_char];
        rewrite IH by (cbn [String.length]; lia); reflexivity.
    + destruct (Ascii.eqb c LF) eqn:Hlf; cbn [contains_char];
        rewrite IH by lia; [reflexivity|].
      unfold is_line_terminator. rewrite Hcr, Hlf. reflexivity.
Qed.

Lemma collapse_no_line_break (s : string) :
  contains_char is_line_terminator (collapse_line_breaks s) = false.
Proof. apply (collapse_no_line_break_bounded (String.length s)). lia. Qed.

Lemma collapse_fixed (s : string) :
  contains_char is_line_terminator s = false -> collapse_line_breaks s = s.
Proof.
  induction s as [|c s IH]; [reflexivity|].
  cbn [contains_char collapse_line_breaks]. intros H.
  apply orb_false_iff in H. destruct H as [Hc Hs].
  unfold is_line_terminator in Hc. apply orb_false_iff in Hc.
  destruct Hc as [Hlf Hcr]. rewrite Hcr, Hlf, (IH Hs). reflexivity.
Qed.

Lemma collapse_idem (s : string) :
  collapse_line_breaks (collapse_line_breaks s) = collapse_line_breaks s.
Proof. apply collapse_fixed, collapse_no_line_break. Qed.

Lemma collapse_empty (s : string) :
  is_empty (collapse_line_breaks s) = is_empty s.
Proof.
  destruct s as [|c s']; [reflexivity|]. cbn [collapse_line_breaks].
  destruct (Ascii.eqb c CR).
  - destruct s' as [|d s'']; [reflexivity|]. destruct (Ascii.eqb d LF); reflexivity.
  - destruct (Ascii.eqb c LF); reflexivity.
Qed.

(** ** Extraction from the head text *)

Lemma getMetadata_string (html : string) :
  is_empty html = false ->
  getMetadata (VString html) = fields_of_head (head_of html).
Proof.
  intros H. unfold getMetadata, head_of. cbn [truthy typeof].
  rewrite H. cbn [negb orb String.eqb]. simpl (String.eqb _ _).
  cbn [negb orb]. rewrite replace_newline. reflexivity.
Qed.

Lemma getMetadata_empty : getMetadata (VString EmptyString) = absentMetadata.
Proof. reflexivity. Qed.

Lemma fields_of_no_head : fields_of_head None = absentMetadata.
Proof. vm_compute. reflexivity. Qed.

(** ** The matcher *)

Lemma progress_ext (s : string) (k k' : mcont) :
  cont_eq k k' -> cont_eq (progress s k) (progress s k').
Proof.
  intros H s1 cap1. unfold progress.
  destruct (Nat.ltb _ _); [apply H | reflexivity].
Qed.

Section Repeat.

(** Matching one more atom respects the equality of continuations. *)
Variable step : matcher.
Hypothesis step_ext :
  forall s cap k k', cont_eq k k' -> step s cap k = step s cap k'.

Lemma repeat_greedy_ext (k k' : mcont) (fuel : nat) :
  cont_eq k k' ->
  cont_eq (repeat_greedy step k fuel) (repeat_greedy step k' fuel).
Proof.
  intros H. induction fuel as [|fuel IH]; intros s cap; simpl.
  - apply H.
  - rewrite (step_ext s cap _ _ (progress_ext s _ _ IH)), H. reflexivity.
Qed.

Lemma repeat_lazy_ext (k k' : mcont) (fuel : nat) :
  cont_eq k k' ->
  cont_eq (repeat_lazy step k fuel) (repeat_lazy step k' fuel).
Proof.
  intros H. induction fuel as [|fuel IH]; intros s cap; simpl.
  - apply H.
  - rewrite (step_ext s cap _ _ (progress_ext s _ _ IH)), H. reflexivity.
Qed.

End Repeat.

Lemma rmatch_ext (ic : bool) (r : regex) :
  forall s cap k k', cont_eq k k' -> rmatch ic r s cap k = rmatch ic r s cap k'.
Proof.
  induction r as [| c | | | cs | r1 IH1 r2 IH2 | r1 IH1 r2 IH2
                 | r1 IH1 | r1 IH1 | r1 IH1 | r1 IH1];
    intros s cap k k' H; cbn [rmatch].
  - apply H.
  - unfold single. destruct s; [reflexivity|]. rewrite H. reflexivity.
  - unfold single. destruct s; [reflexivity|]. rewrite H. reflexivity.
  - unfold single. destruct s; [reflexivity|]. rewrite H. reflexivity.
  - unfold single. destruct s; [reflexivity|]. rewrite H. reflexivity.
  - apply IH1. intros s1 cap1. apply IH2. exact H.
  - rewrite (IH1 s cap k k' H), (IH2 s cap k k' H). reflexivity.
  - apply repeat_greedy_ext; [|exact H].
    intros s0 cap0 k0 k0' H0. apply IH1. exact H0.
  - apply repeat_lazy_ext; [|exact H].
    intros s0 cap0 k0 k0' H0. apply IH1. exact H0.
  - rewrite (IH1 s (reset r1 cap) _ _ (progress_ext s _ _ H)), H. reflexivity.
  - apply IH1. intros s1 cap1. apply H.
Qed.

(** A quantified single-character atom needs no fuel: the iterations walk
    down the input. *)

Lemma atom_pred_single (ic : bool) (r : regex) (p : ascii -> bool) :
  atom_pred ic r = Some p ->
  has_group r = false /\
  forall s cap k, rmatch ic r s cap k = single p s cap k.
Proof.
  destruct r; simpl; intros H; try discriminate;
    injection H as <-; split; reflexivity.
Qed.

Lemma repeat_greedy_single (step : matcher) (p : ascii -> bool) (k : mcont) :
  (forall s cap k0, step s cap k0 = single p s cap k0) ->
  forall fuel s cap,
    String.length s <= fuel ->
    repeat_greedy step k fuel s cap = star_greedy p k s cap.
Proof.
  intros Hstep. induction fuel as [|fuel IH]; intros s cap Hlen.
  - destruct s; [reflexivity | simpl in Hlen; lia].
  - cbn [repeat_greedy]. rewrite Hstep. destruct s as [|x s']; [reflexivity|].
    cbn [single star_greedy]. destruct (p x); [|reflexivity].
    unfold progress. rewrite ltb_tail, IH; [reflexivity|].
    cbn [String.length] in Hlen. lia.
Qed.

Lemma repeat_lazy_single (step : matcher) (p : ascii -> bool) (k : mcont) :
  (forall s cap k0, step s cap k0 = single p s cap k0) ->
  forall fuel s cap,
    String.length s <= fuel ->
    repeat_lazy step k fuel s cap = star_lazy p k s cap.
Proof.
  intros Hstep. induction fuel as [|fuel IH]; intros s cap Hlen.
  - destruct s; [|simpl in Hlen; lia]. simpl. destruct (k EmptyString cap); reflexivity.
  - cbn [repeat_lazy]. rewrite Hstep. destruct s as [|x s']; [reflexivity|].
    cbn [single star_lazy]. destruct (p x); [|reflexivity].
    unfold progress. rewrite ltb_tail, IH; [reflexivity|].
    cbn [String.length] in Hlen. lia.
Qed.

(** The two matchers agree: in a star over a single-character atom, as all
    the stars of the source's patterns are, the bound on the number of
    iterations is never what ends the loop. *)
Lemma rmatch_direct_eq (ic : bool) (r : regex) :
  forall s cap k, rmatch ic r s cap k = rmatch_direct ic r s cap k.
Proof.
  induction r as [| c | | | cs | r1 IH1 r2 IH2 | r1 IH1 r2 IH2
                 | r1 IH1 | r1 IH1 | r1 IH1 | r1 IH1];
    intros s cap k; try reflexivity.
  - cbn [rmatch rmatch_direct]. rewrite <- IH1. apply rmatch_ext.
    intros s1 cap1. apply IH2.
  - cbn [rmatch rmatch_direct]. rewrite IH1, IH2. reflexivity.
  - cbn [rmatch_direct]. destruct (atom_pred ic r1) as [p|] eqn:E; [|reflexivity].
    destruct (atom_pred_single ic r1 p E) as [Hg Hs].
    cbn [rmatch]. apply repeat_greedy_single; [|lia].
    intros s0 cap0 k0. unfold reset. rewrite Hg. apply Hs.
  - cbn [rmatch_direct]. destruct (atom_pred ic r1) as [p|] eqn:E; [|reflexivity].
    destruct (atom_pred_single ic r1 p E) as [Hg Hs].
    cbn [rmatch]. apply repeat_lazy_single; [|lia].
    intros s0 cap0 k0. unfold reset. rewrite Hg. apply Hs.
  - cbn [rmatch_direct]. destruct (atom_pred ic r1) as [p|] eqn:E; [|reflexivity].
    destruct (atom_pred_single ic r1 p E) as [Hg Hs].
    cbn [rmatch]. unfold reset. rewrite Hg, Hs.
    destruct s as [|x s']; [reflexivity|]. cbn [single].
    unfold progress. rewrite ltb_tail. reflexivity.
  - cbn [rmatch rmatch_direct]. rewrite <- IH1. reflexivity.
Qed.

(** A literal at the head of a pattern. *)

Lemma rmatch_lit (ic : bool) (p : string) :
  forall s cap k,
    rmatch ic (lit p) s cap k =
    match strip_prefix ic p s with
    | Some s' => k s' cap
    | None => None
    end.
Proof.
  induction p as [|c p IH]; intros s cap k.
  - reflexivity.
  - destruct p as [|d p].
    + destruct s as [|x s']; [reflexivity|]. simpl.
      destruct (matches_char ic c x); reflexivity.
    + change (lit (String c (String d p))) with (Seq (Chr c) (lit (String d p))).
      cbn [rmatch]. destruct s as [|x s']; [reflexivity|].
      cbn [single strip_prefix].
      destruct (matches_char ic c x); [apply IH | reflexivity].
Qed.

(** ** Capture 1 is defined after a match of a pattern of [NODES_REG_EXPS] *)

Lemma single_capture (p : ascii -> bool) :
  passes_capture false (single p).
Proof.
  intros s cap k res H. destruct s as [|x s']; [discriminate|].
  simpl in H. destruct (p x); [|discriminate].
  exists s', cap. repeat split; [exact H | discriminate | auto].
Qed.

Lemma repeat_greedy_capture (step : matcher) (k : mcont) :
  passes_capture false step ->
  forall fuel s cap res,
    repeat_greedy step k fuel s cap = Some res ->
    exists s' cap', k s' cap' = Some res /\ (cap <> None -> cap' <> None).
Proof.
  intros Hstep. induction fuel as [|fuel IH]; intros s cap res H; simpl in H.
  - exists s, cap. auto.
  - destruct (step s cap (progress s (repeat_greedy step k fuel))) as [x|] eqn:E.
    + simpl in H. injection H as ->.
      destruct (Hstep _ _ _ _ E) as [s1 [cap1 [H1 [_ Hc]]]].
      unfold progress in H1. destruct (Nat.ltb _ _); [|discriminate].
      destruct (IH _ _ _ H1) as [s2 [cap2 [H2 Hc2]]].
      exists s2, cap2. auto.
    + simpl in H. exists s, cap. auto.
Qed.

Lemma repeat_lazy_capture (step : matcher) (k : mcont) :
  passes_capture false step ->
  forall fuel s cap res,
    repeat_lazy step k fuel s cap = Some res ->
    exists s' cap', k s' cap' = Some res /\ (cap <> None -> cap' <> None).
Proof.
  intros Hstep. induction fuel as [|fuel IH]; intros s cap res H; simpl in H.
  - exists s, cap. auto.
  - destruct (k s cap) as [x|] eqn:E.
    + simpl in H. injection H as ->. exists s, cap. auto.
    + simpl in H.
      destruct (Hstep _ _ _ _ H) as [s1 [cap1 [H1 [_ Hc]]]].
      unfold progress in H1. destruct (Nat.ltb _ _); [|discriminate].
      destruct (IH _ _ _ H1) as [s2 [cap2 [H2 Hc2]]].
      exists s2, cap2. auto.
Qed.

Lemma passes_capture_weaken (flag : bool) (m : matcher) :
  passes_capture flag m -> passes_capture false m.
Proof.
  intros H s cap k res E. destruct (H _ _ _ _ E) as [s' [cap' [H1 [_ H2]]]].
  exists s', cap'. repeat split; [exact H1 | discriminate | exact H2].
Qed.

Lemma rmatch_capture (ic : bool) (r : regex) :
  quantifiers_plain r = true ->
  passes_capture (sets_group r) (rmatch ic r).
Proof.
  induction r as [| c | | | cs | r1 IH1 r2 IH2 | r1 IH1 r2 IH2
                 | r1 IH1 | r1 IH1 | r1 IH1 | r1 IH1];
    cbn [quantifiers_plain sets_group]; intros Hq.
  - intros s cap k res H. exists s, cap. repeat split; [exact H | discriminate | auto].
  - apply single_capture.
  - apply single_capture.
  - apply single_capture.
  - apply single_capture.
  - apply andb_true_iff in Hq. destruct Hq as [Hq1 Hq2].
    intros s cap k res H. cbn [rmatch] in H.
    destruct (IH1 Hq1 _ _ _ _ H) as [s1 [cap1 [H1 [Hs1 Hc1]]]].
    destruct (IH2 Hq2 _ _ _ _ H1) as [s2 [cap2 [H2 [Hs2 Hc2]]]].
    exists s2, cap2. repeat split; [exact H2 | | auto].
    intros Hs. apply orb_true_iff in Hs. destruct Hs; auto.
  - apply andb_true_iff in Hq. destruct Hq as [Hq1 Hq2].
    intros s cap k res H. cbn [rmatch] in H.
    destruct (rmatch ic r1 s cap k) as [x|] eqn:E; simpl in H.
    + injection H as ->.
      destruct (IH1 Hq1 _ _ _ _ E) as [s1 [cap1 [H1 [Hs1 Hc1]]]].
      exists s1, cap1. repeat split; [exact H1 | | auto].
      intros Hs. apply andb_true_iff in Hs. destruct Hs; auto.
    + destruct (IH2 Hq2 _ _ _ _ H) as [s1 [cap1 [H1 [Hs1 Hc1]]]].
      exists s1, cap1. repeat split; [exact H1 | | auto].
      intros Hs. apply andb_true_iff in Hs. destruct Hs; auto.
  - apply andb_true_iff in Hq. destruct Hq as [Hg Hq1].
    apply negb_true_iff in Hg.
    intros s cap k res H. cbn [rmatch] in H.
    apply repeat_greedy_capture in H.
    + destruct H as [s1 [cap1 [H1 Hc1]]]. exists s1, cap1.
      repeat split; [exact H1 | discriminate | exact Hc1].
    + intros s0 cap0 k0 res0 H0. unfold reset in H0. rewrite Hg in H0.
      apply (passes_capture_weaken _ _ (IH1 Hq1) _ _ _ _ H0).
  - apply andb_true_iff in Hq. destruct Hq as [Hg Hq1].
    apply negb_true_iff in Hg.
    intros s cap k res H. cbn [rmatch] in H.
    apply repeat_lazy_capture in H.
    + destruct H as [s1 [cap1 [H1 Hc1]]]. exists s1, cap1.
      repeat split; [exact H1 | discriminate | exact Hc1].
    + intros s0 cap0 k0 res0 H0. unfold reset in H0. rewrite Hg in H0.
      apply (passes_capture_weaken _ _ (IH1 Hq1) _ _ _ _ H0).
  - apply andb_true_iff in Hq. destruct Hq as [Hg Hq1].
    apply negb_true_iff in Hg.
    intros s cap k res H. cbn [rmatch] in H. unfold reset in H. rewrite Hg in H.
    destruct (rmatch ic r1 s cap (progress s k)) as [x|] eqn:E; simpl in H.
    + injection H as ->.
      destruct (IH1 Hq1 _ _ _ _ E) as [s1 [cap1 [H1 [_ Hc1]]]].
      unfold progress in H1. destruct (Nat.ltb _ _); [|discriminate].
      exists s1, cap1. repeat split; [exact H1 | discriminate | exact Hc1].
    + exists s, cap. repeat split; [exact H | discriminate | auto].
  - intros s cap k res H. cbn [rmatch] in H.
    destruct (IH1 Hq _ _ _ _ H) as [s1 [cap1 [H1 _]]].
    eexists s1, _. repeat split; [exact H1 | discriminate | discriminate].
Qed.

Lemma exec_group1_defined (re : RegExp) :
  quantifiers_plain (source re) = true ->
  sets_group (source re) = true ->
  forall s result,
    RegExp_exec re s = Some result -> exists v, group1 result = Some v.
Proof.
  intros Hq Hs s. unfold RegExp_exec. generalize 0.
  induction s as [|c s IH]; intros i result; cbn [exec_at];
    destruct (match_at _ _) as [[rest cap]|] eqn:E; try discriminate;
    try (apply IH);
    intros H; injection H as <-; cbn [group1];
    unfold match_at in E;
    destruct (rmatch_capture _ _ Hq _ _ _ _ E) as [s1 [cap1 [H1 [Hd _]]]];
    unfold accept in H1; injection H1 as _ ->;
    destruct cap as [v|]; [exists v; reflexivity | exfalso; apply (Hd Hs); reflexivity
    | exists v; reflexivity | exfalso; apply (Hd Hs); reflexivity].
Qed.

Lemma node_patterns_group1 (re : RegExp) (s : string) (result : MatchResult) :
  In re node_patterns ->
  RegExp_exec re s = Some result -> exists v, group1 result = Some v.
Proof.
  intros Hin. apply exec_group1_defined;
    simpl in Hin;
    repeat (destruct Hin as [<-|Hin]; [reflexivity|]); destruct Hin.
Qed.

(** ** The head pattern needs the literal [<head>] *)

Lemma occurs_here (ic : bool) (p s : string) :
  strip_prefix ic p s <> None -> occurs ic p s = true.
Proof.
  intros H. destruct s; cbn [occurs]; destruct (strip_prefix ic p _);
    congruence.
Qed.

Lemma occurs_later (ic : bool) (p : string) (c : ascii) (s : string) :
  occurs ic p s = true -> occurs ic p (String c s) = true.
Proof.
  intros H. cbn [occurs]. destruct (strip_prefix ic p _); [reflexivity | exact H].
Qed.

Lemma occurs_inv (ic : bool) (p : string) (c : ascii) (s : string) :
  occurs ic p (String c s) = true ->
  strip_prefix ic p (String c s) <> None \/ occurs ic p s = true.
Proof.
  cbn [occurs]. destruct (strip_prefix ic p _); [left; discriminate | right; assumption].
Qed.

Lemma strip_prefix_collapse (ic : bool) (p : string) :
  contains_char (fun c => matches_char ic c " ") p = false ->
  forall s,
    strip_prefix ic p (collapse_line_breaks s) <> None ->
    strip_prefix ic p s <> None.
Proof.
  induction p as [|c p IH]; intros Hp s H.
  - discriminate.
  - cbn [contains_char] in Hp. apply orb_false_iff in Hp.
    destruct Hp as [Hc Hp].
    destruct s as [|x s']; [exact H|].
    cbn [collapse_line_breaks] in H. cbn [strip_prefix].
    destruct (Ascii.eqb x CR).
    + exfalso. destruct s' as [|d s''];
        [|destruct (Ascii.eqb d LF)]; cbn [strip_prefix] in H;
        rewrite Hc in H; congruence.
    + destruct (Ascii.eqb x LF).
      * exfalso. cbn [strip_prefix] in H. rewrite Hc in H. congruence.
      * cbn [strip_prefix] in H. destruct (matches_char ic c x); [|congruence].
        apply (IH Hp). exact H.
Qed.

Lemma occurs_collapse_bounded (ic : bool) (p : string) :
  contains_char (fun c => matches_char ic c " ") p = false ->
  forall n s,
    String.length s <= n ->
    occurs ic p (collapse_line_breaks s) = true -> occurs ic p s = true.
Proof.
  intros Hp. induction n as [|n IH]; intros s Hn H.
  - destruct s; [exact H | simpl in Hn; lia].
  - destruct s as [|x s']; [exact H|].
    cbn [String.length] in Hn.
    assert (Hhere : strip_prefix ic p (collapse_line_breaks (String x s')) <> None ->
                    occurs ic p (String x s') = true).
    { intros E. apply occurs_here, (strip_prefix_collapse ic p Hp). exact E. }
    cbn [collapse_line_breaks] in H, Hhere.
    destruct (Ascii.eqb x CR).
    + destruct s' as [|d s''].
      * apply occurs_inv in H. destruct H as [H|H]; [auto|].
        apply occurs_later. exact H.
      * cbn [String.length] in Hn. destruct (Ascii.eqb d LF);
          apply occurs_inv in H; destruct H as [H|H]; auto.
        -- apply occurs_later, occurs_later, IH; [lia | exact H].
        -- apply occurs_later, IH; [cbn [String.length]; lia | exact H].
    + destruct (Ascii.eqb x LF);
        apply occurs_inv in H; destruct H as [H|H]; auto;
        apply occurs_later, IH; (lia || exact H).
Qed.

Lemma occurs_collapse (ic : bool) (p s : string) :
  contains_char (fun c => matches_char ic c " ") p = false ->
  occurs ic p (collapse_line_breaks s) = true -> occurs ic p s = true.
Proof.
  intros Hp. apply (occurs_collapse_bounded ic p Hp (String.length s)). lia.
Qed.

Lemma match_at_head_literal (s : string) :
  strip_prefix true "<head>" s = None ->
  match_at NODES_REG_EXPS.head s = None.
Proof.
  intros H. unfold match_at.
  cbn [source ignoreCase NODES_REG_EXPS.head seq_of rmatch].
  rewrite rmatch_lit, H. reflexivity.
Qed.

Lemma exec_head_literal (s : string) :
  occurs true "<head>" s = false ->
  forall i, exec_at NODES_REG_EXPS.head i s = None.
Proof.
  induction s as [|c s IH]; cbn [occurs exec_at]; intros H i;
    destruct (strip_prefix true "<head>" _) eqn:E; try discriminate;
    rewrite (match_at_head_literal _ E); auto.
Qed.

Lemma head_of_literal (html : string) :
  occurs true "<head>" html = false -> head_of html = None.
Proof.
  intros H. unfold head_of, getNodeValue, RegExp_exec. cbn [ToString].
  rewrite exec_head_literal; [reflexivity|].
  destruct (occurs true "<head>" (collapse_line_breaks html)) eqn:E;
    [|reflexivity].
  apply occurs_collapse in E; [congruence | reflexivity].
Qed.

(** ** A lazy star stops at the first place where what follows matches *)

Lemma match_at_direct (re : RegExp) (s : string) :
  match_at re s = rmatch_direct (ignoreCase re) (source re) s None accept.
Proof. apply rmatch_direct_eq. Qed.

Lemma fails_along_app (k : mcont) (cap : option string) (a b rest : string) :
  fails_along k cap a (b ++ rest) -> fails_along k cap b rest ->
  fails_along k cap (a ++ b) rest.
Proof.
  induction a as [|c a IH]; simpl; intros Ha Hb.
  - exact Hb.
  - destruct Ha as [H Ha]. rewrite append_assoc. auto.
Qed.

Lemma fails_along_chars (k : mcont) (cap : option string) (q : ascii -> bool)
  (pre rest : string) :
  (forall c s, q c = false -> k (String c s) cap = None) ->
  contains_char q pre = false ->
  fails_along k cap pre rest.
Proof.
  intros Hk. induction pre as [|c pre IH]; simpl; intros H.
  - exact I.
  - apply orb_false_iff in H. destruct H as [Hc Hp]. auto.
Qed.

Lemma star_lazy_first (p : ascii -> bool) (k : mcont) (cap : option string)
  (pre rest : string) :
  contains_char (fun c => negb (p c)) pre = false ->
  fails_along k cap pre rest ->
  star_lazy p k (pre ++ rest) cap = star_lazy p k rest cap.
Proof.
  induction pre as [|c pre IH]; intros Hp Hk.
  - reflexivity.
  - cbn [contains_char] in Hp. apply orb_false_iff in Hp.
    destruct Hp as [Hc Hp]. apply negb_false_iff in Hc.
    destruct Hk as [Hk Hk'].
    change (String c pre ++ rest) with (String c (pre ++ rest)) in *.
    cbn [star_lazy]. rewrite Hk, Hc. cbn [or_else]. apply IH; assumption.
Qed.

Lemma star_lazy_here (p : ascii -> bool) (k : mcont) (cap : option string)
  (s : string) (res : mresult) :
  k s cap = Some res -> star_lazy p k s cap = Some res.
Proof. intros H. destruct s; cbn [star_lazy]; rewrite H; reflexivity. Qed.

Lemma exec_at_skip (re : RegExp) (pre rest : string) :
  fails_along (fun s _ => match_at re s) None pre rest ->
  forall i,
    exec_at re i (pre ++ rest) = exec_at re (i + String.length pre) rest.
Proof.
  induction pre as [|c pre IH]; intros H i.
  - simpl. rewrite Nat.add_0_r. reflexivity.
  - destruct H as [H H']. change (String c pre ++ rest) with (String c (pre ++ rest)) in *.
    cbn [exec_at]. rewrite H, (IH H'). f_equal. simpl. lia.
Qed.

Lemma matches_lt (c : ascii) : matches_char true "<" c = Ascii.eqb c "<".
Proof. destruct c as [[] [] [] [] [] [] [] []]; reflexivity. Qed.

Lemma matches_dquote (c : ascii) : matches_char true dquote c = Ascii.eqb c dquote.
Proof. destruct c as [[] [] [] [] [] [] [] []]; reflexivity. Qed.

Lemma fails_alongb_sound (k : mcont) (cap : option string) (pre rest : string) :
  fails_alongb k cap pre rest = true -> fails_along k cap pre rest.
Proof.
  induction pre as [|c pre IH]; cbn [fails_alongb fails_along]; intros H.
  - exact I.
  - destruct (k (String c pre ++ rest) cap); [discriminate | auto].
Qed.

Lemma fails_along_ext (k k' : mcont) (cap : option string) (pre rest : string) :
  cont_eq k k' -> fails_along k cap pre rest -> fails_along k' cap pre rest.
Proof.
  intros E. induction pre as [|c pre IH]; cbn [fails_along]; intros H.
  - exact I.
  - destruct H as [H H']. rewrite <- E. auto.
Qed.

Lemma fails_along_any_capture (m : string -> option string -> option mresult)
  (g : string -> option string) (cap : option string) (pre rest : string) :
  (forall cap', fails_along (fun s _ => m s cap') None pre rest) ->
  fails_along (fun s _ => m s (g s)) cap pre rest.
Proof.
  induction pre as [|c pre IH]; cbn [fails_along]; intros H.
  - exact I.
  - split.
    + apply (H (g (String c pre ++ rest))).
    + apply IH. intros cap'. apply (H cap').
Qed.

Lemma contains_char_ext (p q : ascii -> bool) (s : string) :
  (forall c, p c = q c) -> contains_char p s = contains_char q s.
Proof.
  intros H. induction s as [|c s IH]; simpl; [reflexivity|].
  rewrite H, IH. reflexivity.
Qed.

(** [(.*?)] followed by [r]: the capture is the text up to the first place
    where [r] and what follows it match. *)
Lemma group_lazy_run (r : regex) (k : mcont) (cap : option string)
  (X B : string) (res : mresult) :
  contains_char is_line_terminator X = false ->
  (forall cap', fails_along (fun s _ => rmatch_direct true r s cap' k) None X B) ->
  rmatch_direct true r B (Some X) k = Some res ->
  rmatch_direct true (Seq (Group (StarLazy Dot)) r) (X ++ B) cap k = Some res.
Proof.
  intros HX Hfail Hres. cbn [rmatch_direct atom_pred].
  rewrite star_lazy_first.
  - apply star_lazy_here. rewrite substring_0_append. exact Hres.
  - rewrite <- HX. apply contains_char_ext. intros c. apply negb_involutive.
  - apply (fails_along_any_capture (fun s cap' => rmatch_direct true r s cap' k)).
    exact Hfail.
Qed.

(** Steps through the fixed text of a pattern. *)

Lemma strip_prefix_append (ic : bool) (p : string) :
  forall P s,
    strip_prefix ic p P = Some EmptyString ->
    strip_prefix ic p (P ++ s) = Some s.
Proof.
  induction p as [|c p IH]; intros P s H.
  - simpl in H. injection H as ->. reflexivity.
  - destruct P as [|x P]; [discriminate|]. cbn [strip_prefix append] in *.
    destruct (matches_char ic c x); [auto | discriminate].
Qed.

Lemma lit_step (ic : bool) (p P s : string) (cap : option string) (k : mcont) :
  strip_prefix ic p P = Some EmptyString ->
  rmatch_direct ic (lit p) (P ++ s) cap k = k s cap.
Proof.
  intros H. rewrite <- rmatch_direct_eq, rmatch_lit.
  rewrite (strip_prefix_append ic p P s H). reflexivity.
Qed.

Lemma seq_lit_step (ic : bool) (p : string) (r : regex) (P s : string)
  (cap : option string) (k : mcont) :
  strip_prefix ic p P = Some EmptyString ->
  rmatch_direct ic (Seq (lit p) r) (P ++ s) cap k = rmatch_direct ic r s cap k.
Proof. intros H. cbn [rmatch_direct]. apply lit_step. exact H. Qed.

Lemma star_greedy_skip (p : ascii -> bool) (k : mcont) (cap : option string)
  (ws s : string) (res : mresult) :
  contains_char (fun c => negb (p c)) ws = false ->
  head_free p s = true ->
  k s cap = Some res ->
  star_greedy p k (ws ++ s) cap = Some res.
Proof.
  intros Hws Hs Hk. induction ws as [|w ws IH].
  - destruct s as [|c s']; [exact Hk|]. cbn [append star_greedy].
    simpl in Hs. apply negb_true_iff in Hs. rewrite Hs. exact Hk.
  - cbn [contains_char] in Hws. apply orb_false_iff in Hws.
    destruct Hws as [Hw Hws]. apply negb_false_iff in Hw.
    cbn [append star_greedy]. rewrite Hw, (IH Hws). reflexivity.
Qed.

Lemma seq_spaces_step (ic : bool) (r : regex) (ws s : string)
  (cap : option string) (k : mcont) (res : mresult) :
  contains_char (fun c => negb (is_whitespace c)) ws = false ->
  head_free is_whitespace s = true ->
  rmatch_direct ic r s cap k = Some res ->
  rmatch_direct ic (Seq (Star Space) r) (ws ++ s) cap k = Some res.
Proof.
  intros Hws Hs Hk. cbn [rmatch_direct atom_pred].
  apply star_greedy_skip; assumption.
Qed.

Lemma plain_text_parts (X : string) :
  plain_text X = true ->
  contains_char is_line_terminator X = false /\
  contains_char (fun c => Ascii.eqb c dquote) X = false /\
  contains_char (fun c => Ascii.eqb c "<") X = false.
Proof.
  unfold plain_text. intros H. apply negb_true_iff in H.
  induction X as [|c X IH]; [auto|].
  cbn [contains_char] in *. apply orb_false_iff in H. destruct H as [Hc HX].
  apply orb_false_iff in Hc. destruct Hc as [Hc Hlt].
  apply orb_false_iff in Hc. destruct Hc as [Hnl Hdq].
  destruct (IH HX) as [H1 [H2 H3]].
  rewrite Hnl, Hdq, Hlt, H1, H2, H3. auto.
Qed.

Lemma meta_tail_needs_dquote (c : ascii) (s : string) (cap : option string)
  (k : mcont) :
  Ascii.eqb c dquote = false ->
  rmatch_direct true meta_tail (String c s) cap k = None.
Proof.
  intros H. cbn [meta_tail seq_of rmatch_direct]. rewrite <- rmatch_direct_eq.
  cbn [qq lit rmatch single]. simpl (if Ascii.eqb "'" "'" then _ else _).
  rewrite matches_dquote, H. reflexivity.
Qed.

Lemma description2_at_head (X : string) :
  plain_text X = true ->
  match_at NODES_REG_EXPS.description2 (head_with_description X) =
  Some (EmptyString, Some X).
Proof.
  intros HX. destruct (plain_text_parts X HX) as [Hnl [Hdq Hlt]].
  rewrite match_at_direct.
  cbn [source ignoreCase NODES_REG_EXPS.description2].
  change (seq_of _) with
    (Seq (lit "<meta") (Seq (Star Space)
       (Seq (lit (qq "name='description'")) (Seq (Star Space)
          (Seq (lit (qq "content='"))
             (Seq (Group (StarLazy Dot)) meta_tail)))))).
  change (head_with_description X) with
    ("<meta" ++ " " ++ qq "name='description'" ++ " " ++ qq "content='" ++
     X ++ qq "'>").
  rewrite seq_lit_step by reflexivity.
  apply seq_spaces_step; [reflexivity | reflexivity |].
  rewrite seq_lit_step by reflexivity.
  apply seq_spaces_step; [reflexivity | reflexivity |].
  rewrite seq_lit_step by reflexivity.
  apply group_lazy_run; [exact Hnl | | reflexivity].
  intros cap'. apply fails_along_chars with (q := fun c => Ascii.eqb c dquote).
  - intros c s Hc. apply meta_tail_needs_dquote. exact Hc.
  - exact Hdq.
Qed.

Lemma exec_at_here (re : RegExp) (i : nat) (s rest : string)
  (cap : option string) :
  match_at re s = Some (rest, cap) ->
  exec_at re i s = Some (mkMatch i (substring 0 (consumed s rest) s) cap).
Proof. intros H. destruct s; cbn [exec_at]; rewrite H; reflexivity. Qed.

Lemma close_head_needs_lt (c : ascii) (s : string) (cap : option string) :
  Ascii.eqb c "<" = false ->
  rmatch_direct true (lit "</head>") (String c s) cap accept = None.
Proof.
  intros H. rewrite <- rmatch_direct_eq, rmatch_lit. cbn [strip_prefix].
  rewrite matches_lt, H. reflexivity.
Qed.

Lemma head_with_description_clean (X : string) :
  plain_text X = true ->
  contains_char is_line_terminator (head_with_description X) = false.
Proof.
  intros HX. destruct (plain_text_parts X HX) as [Hnl _].
  unfold head_with_description. rewrite !contains_char_append, Hnl.
  reflexivity.
Qed.

Lemma html_with_description_parts (X : string) :
  html_with_description X = "<head>" ++ head_with_description X ++ "</head>".
Proof.
  unfold html_with_description, head_with_description.
  rewrite !append_assoc. reflexivity.
Qed.

Lemma head_at_html (X : string) :
  plain_text X = true ->
  match_at NODES_REG_EXPS.head (html_with_description X) =
  Some (EmptyString, Some (head_with_description X)).
Proof.
  intros HX. destruct (plain_text_parts X HX) as [Hnl [Hdq Hlt]].
  rewrite match_at_direct.
  cbn [source ignoreCase NODES_REG_EXPS.head].
  change (seq_of _) with
    (Seq (lit "<head>") (Seq (Group (StarLazy Dot)) (lit "</head>"))).
  rewrite html_with_description_parts.
  rewrite seq_lit_step by reflexivity.
  apply group_lazy_run;
    [apply head_with_description_clean; exact HX | | reflexivity].
  intros cap'. unfold head_with_description.
  apply fails_along_app; [|apply fails_along_app].
  - apply fails_alongb_sound. vm_compute. reflexivity.
  - apply fails_along_chars with (q := fun c => Ascii.eqb c "<").
    + intros c s Hc. apply close_head_needs_lt. exact Hc.
    + exact Hlt.
  - apply fails_alongb_sound. vm_compute. reflexivity.
Qed.

Lemma node_pattern_needs_lt (re : RegExp) (c : ascii) (s : string) :
  In re node_patterns ->
  Ascii.eqb c "<" = false -> match_at re (String c s) = None.
Proof.
  intros Hin Hc. simpl in Hin.
  repeat (destruct Hin as [<-|Hin];
          [unfold match_at;
           cbn [source ignoreCase seq_of rmatch
                NODES_REG_EXPS.head NODES_REG_EXPS.title NODES_REG_EXPS.url
                NODES_REG_EXPS.siteName NODES_REG_EXPS.description
                NODES_REG_EXPS.description2 NODES_REG_EXPS.keywords
                NODES_REG_EXPS.author];
           rewrite rmatch_lit; cbn [strip_prefix];
           rewrite matches_lt, Hc; reflexivity|]).
  destruct Hin.
Qed.

Lemma other_patterns_node (re : RegExp) :
  In re other_patterns -> In re node_patterns.
Proof.
  simpl. intros H.
  repeat (destruct H as [<-|H]; [tauto|]). destruct H.
Qed.

Lemma other_patterns_absent (re : RegExp) (X : string) :
  In re other_patterns ->
  plain_text X = true ->
  getNodeValue (Some (head_with_description X)) re = None.
Proof.
  intros Hin HX. destruct (plain_text_parts X HX) as [Hnl [Hdq Hlt]].
  assert (Hx : fails_along (fun s _ => match_at re s) None X (qq "'>")).
  { apply fails_along_chars with (q := fun c => Ascii.eqb c "<"); [|exact Hlt].
    intros c s Hc. apply node_pattern_needs_lt;
      [apply other_patterns_node; exact Hin | exact Hc]. }
  unfold getNodeValue, RegExp_exec, head_with_description. cbn [ToString].
  assert (Ha : fails_along (fun s _ => match_at re s) None
                 (qq "<meta name='description' content='") (X ++ qq "'>")).
  { apply fails_along_ext with
      (k := fun s _ => rmatch_direct (ignoreCase re) (source re) s None accept).
    - intros s cap. symmetry. apply match_at_direct.
    - apply fails_alongb_sound. simpl in Hin.
      repeat (destruct Hin as [<-|Hin]; [vm_compute; reflexivity|]).
      destruct Hin. }
  rewrite (exec_at_skip re _ _ Ha), (exec_at_skip re _ _ Hx).
  simpl in Hin.
  repeat (destruct Hin as [<-|Hin]; [vm_compute; reflexivity|]).
  destruct Hin.
Qed.

Lemma html_with_description_head (X : string) :
  plain_text X = true ->
  head_of (html_with_description X) = Some (head_with_description X).
Proof.
  intros HX. unfold head_of, getNodeValue, RegExp_exec. cbn [ToString].
  rewrite collapse_fixed.
  - rewrite (exec_at_here _ _ _ _ _ (head_at_html X HX)). reflexivity.
  - rewrite html_with_description_parts.
    rewrite !contains_char_append, (head_with_description_clean X HX).
    reflexivity.
Qed.

Lemma html_with_description_fields (X : string) :
  plain_text X = true ->
  getMetadata (VString (html_with_description X)) =
  mkMetadata None None None (Some X) None None.
Proof.
  intros HX. rewrite getMetadata_string by reflexivity.
  rewrite (html_with_description_head X HX). unfold fields_of_head.
  rewrite (other_patterns_absent NODES_REG_EXPS.url X) by (simpl; tauto).
  rewrite (other_patterns_absent NODES_REG_EXPS.siteName X) by (simpl; tauto).
  rewrite (other_patterns_absent NODES_REG_EXPS.title X) by (simpl; tauto).
  rewrite (other_patterns_absent NODES_REG_EXPS.description X) by (simpl; tauto).
  rewrite (other_patterns_absent NODES_REG_EXPS.keywords X) by (simpl; tauto).
  rewrite (other_patterns_absent NODES_REG_EXPS.author X) by (simpl; tauto).
  unfold getNodeValue at 1, RegExp_exec. cbn [ToString].
  rewrite (exec_at_here _ _ _ _ _ (description2_at_head X HX)).
  reflexivity.
Qed.

(** ** Flattening distributes over the field texts *)

Lemma remove_chars_append (p : ascii -> bool) (a b : string) :
  remove_chars p (a ++ b) = remove_chars p a ++ remove_chars p b.
Proof.
  induction a as [|c a IH]; simpl; [reflexivity|].
  destruct (p c); simpl; congruence.
Qed.

Lemma title_in_flattened (m : Metadata) (pre mid post : string) :
  title m = Some (pre ++ mid ++ post) ->
  exists pre' post',
    flattened m =
    pre' ++ toLowerCase (remove_chars is_special mid) ++ post'.
Proof.
  intros H. unfold flattened. rewrite H. cbn [field_text].
  exists (toLowerCase
            (remove_chars is_special
               (field_text (url m) ++ " " ++ field_text (siteName m) ++ " " ++ pre))),
         (toLowerCase
            (remove_chars is_special
               (post ++ " " ++ field_text (description m) ++ " " ++
                keywords_text (keywords m) ++ " " ++ field_text (author m)))).
  rewrite <- !toLowerCase_append, <- !remove_chars_append.
  rewrite !append_assoc. reflexivity.
Qed.

Lemma getMetadata_collapse (html : string) :
  getMetadata (VString html) = getMetadata (VString (collapse_line_breaks html)).
Proof.
  destruct (is_empty html) eqn:E.
  - destruct html; [reflexivity | discriminate].
  - rewrite !getMetadata_string by (rewrite ?collapse_empty; exact E).
    unfold head_of. rewrite collapse_idem. reflexivity.
Qed.

Lemma is_empty_false (s : string) : s <> EmptyString -> is_empty s = false.
Proof. destruct s; [congruence | reflexivity]. Qed.

(** The fields are read from the head text alone. *)
Lemma getMetadata_reads_head_only (html1 html2 : string) :
  html1 <> EmptyString -> html2 <> EmptyString ->
  head_of html1 = head_of html2 ->
  getMetadata (VString html1) = getMetadata (VString html2).
Proof.
  intros H1 H2 E.
  rewrite !getMetadata_string by (apply is_empty_false; assumption).
  rewrite E. reflexivity.
Qed.

(** ** Sample runs *)

Example sample_extraction :
  getMetadata (VString sample_html) =
  mkMetadata (Some "http://x.y/") (Some "Site") (Some "My Page")
    (Some "Plain text") (Some ["cat"; "dog"]) (Some "Ann").
Proof. vm_compute. reflexivity. Qed.

Example sample_flattened :
  formatMetadataValues (getMetadata (VString sample_html)) =
  "http://xy/ site my page plain text catdog ann".
Proof. vm_compute. reflexivity. Qed.

Example sample_filter_any_word_any_case :
  filterMetadata
    (VArray [absentMetadata; getMetadata (VString sample_html)])
    (VString "bird PAGE") =
  [getMetadata (VString sample_html)].
Proof. vm_compute. reflexivity. Qed.

Example sample_split_at_special :
  String_split_re "-a--b-" SPECIAL_CHARS_REGEXP =
  [EmptyString; "a"; EmptyString; "b"; EmptyString].
Proof. vm_compute. reflexivity. Qed.

(** * The claims *)

(** C1 (the code departs from the claim): the claim says that no string field
    of an extracted record is the empty string and that keywords is never an
    empty sequence.  On a head with an empty title, an empty description and a
    keywords value made of a comma only, [getMetadata] returns the empty
    string for title and description and the empty sequence for keywords. *)
Theorem C1_empty_values_are_returned :
  getMetadata
    (VString
       (qq "<head><title></title><meta name='description' content=''><meta name='keywords' content=','></head>")) =
  mkMetadata None None (Some EmptyString) (Some EmptyString) (Some []) None.
Proof. vm_compute. reflexivity. Qed.

(** C2: for every array of records and every non-empty query, [filterMetadata]
    returns exactly the records, in the order of the array, whose flattened
    text (the six field values joined by single spaces, every special
    character stripped, in lower case) holds at least one candidate token of
    the query as a substring up to case. *)
Theorem C2_filter_returns_the_matching_records
  (records : list Metadata) (query : string) :
  query <> EmptyString ->
  exists keep : Metadata -> bool,
    filterMetadata (VArray records) (VString query) = filter keep records /\
    forall m, keep m = true <-> record_matches m query.
Proof.
  intros H. exists (fun m => doesMetadataMatch m (getQueryArray query)). split.
  - apply filterMetadata_query. exact H.
  - intros m. apply doesMetadataMatch_spec.
Qed.

(** C2 at two records and the query cat. *)
Lemma C2_witness :
  "cat" <> EmptyString /\
  exists keep : Metadata -> bool,
    filterMetadata
      (VArray [absentMetadata; mkMetadata None None (Some "Cats") None None None])
      (VString "cat") =
    filter keep [absentMetadata; mkMetadata None None (Some "Cats") None None None] /\
    forall m, keep m = true <-> record_matches m "cat".
Proof.
  split.
  - discriminate.
  - apply (C2_filter_returns_the_matching_records
             [absentMetadata; mkMetadata None None (Some "Cats") None None None]
             "cat").
    discriminate.
Defined.

(** C3: the query is split on single spaces; a word without a special
    character is kept as it is; a word with one gives its pieces between the
    special characters, then the word with the special characters stripped,
    then the word itself; tokens of length at most 1 are dropped.  So the
    query light-year matches a record whose title holds lightyear, and the
    query a has no token and matches nothing. *)
Theorem C3_query_tokenization :
  (forall query,
     getQueryArray query =
     filter (fun token => Nat.ltb 1 (String.length token))
       (flat_map handleSpecialChars (split_on is_space query))) /\
  (forall word,
     contains_char is_special word = false -> handleSpecialChars word = [word]) /\
  (forall word,
     contains_char is_special word = true ->
     handleSpecialChars word =
     (split_on is_special word ++ [remove_chars is_special word; word])%list) /\
  (forall query token,
     In token (getQueryArray query) -> 1 < String.length token) /\
  getQueryArray "light-year" = ["light"; "year"; "lightyear"; "light-year"] /\
  (forall m pre post,
     title m = Some (pre ++ "lightyear" ++ post) ->
     filterMetadata (VArray [m]) (VString "light-year") = [m]) /\
  getQueryArray "a" = [] /\
  (forall records, filterMetadata (VArray records) (VString "a") = []).
Proof.
  repeat split.
  - intros query. rewrite getQueryArray_tokens. unfold candidate_tokens.
    f_equal. induction (split_on is_space query) as [|w l IH]; simpl.
    + reflexivity.
    + rewrite handleSpecialChars_expand, IH. reflexivity.
  - intros word H. rewrite handleSpecialChars_expand. unfold expand_word.
    rewrite H. reflexivity.
  - intros word H. rewrite handleSpecialChars_expand. unfold expand_word.
    rewrite H. reflexivity.
  - intros query token H. rewrite getQueryArray_tokens in H.
    apply candidate_tokens_shape in H. tauto.
  - intros m pre post H.
    rewrite filterMetadata_query by discriminate.
    cbn [filter].
    assert (E : doesMetadataMatch m (getQueryArray "light-year") = true).
    { unfold doesMetadataMatch. apply existsb_exists.
      exists "lightyear". split; [vm_compute; tauto|].
      rewrite formatMetadataValues_flattened.
      apply String_includes_spec.
      destruct (title_in_flattened m pre "lightyear" post H) as [a [b E]].
      exists a, b. exact E. }
    rewrite E. reflexivity.
  - intros records. rewrite filterMetadata_query by discriminate.
    induction records as [|m records IH]; [reflexivity|].
    cbn [filter]. rewrite IH. reflexivity.
Qed.

(** C4: for an input that is undefined, null, the empty string or not a
    string, [getMetadata] returns the record with all six fields absent. *)
Theorem C4_degenerate_input_gives_absent_record (html : value) :
  html = VUndefined \/ html = VNull \/ html = VString EmptyString \/
  typeof html <> "string" ->
  getMetadata html = mkMetadata None None None None None None.
Proof.
  intros [-> | [-> | [-> | H]]]; try reflexivity.
  destruct html as [| | b | n | s | l |];
    try (unfold getMetadata; destruct (_ || _); reflexivity).
  exfalso. apply H. reflexivity.
Qed.

(** C4 at a number. *)
Lemma C4_witness :
  typeof (VNumber 42) <> "string" /\
  getMetadata (VNumber 42) = mkMetadata None None None None None None.
Proof.
  split.
  - discriminate.
  - apply (C4_degenerate_input_gives_absent_record (VNumber 42)).
    right. right. right. discriminate.
Defined.

(** C5: [filterMetadata] returns the empty array when its first argument is
    not an array or its query is not a string, the array itself when the query
    is the empty string, and the empty array on the empty array for every
    string query. *)
Theorem C5_filter_degenerate_inputs :
  (forall metadata query,
     Array_isArray metadata = false \/ typeof query <> "string" ->
     filterMetadata metadata query = []) /\
  (forall records,
     filterMetadata (VArray records) (VString EmptyString) = records) /\
  (forall q, filterMetadata (VArray []) (VString q) = []).
Proof.
  repeat split.
  - intros metadata query [H | H]; unfold filterMetadata.
    + destruct metadata; try discriminate H;
        destruct (_ || _); try reflexivity; destruct query; reflexivity.
    + destruct query as [| | b | n | s | l |];
        try (destruct (_ || _); try reflexivity; destruct metadata; reflexivity).
      exfalso. apply H. reflexivity.
  - intros q. destruct q; reflexivity.
Qed.

(** C5 at null for the array and at a number for the query. *)
Lemma C5_witness :
  filterMetadata VNull (VString "cat") = [] /\
  filterMetadata (VArray [absentMetadata]) (VNumber 7) = [].
Proof.
  split.
  - apply (proj1 C5_filter_degenerate_inputs). left. reflexivity.
  - apply (proj1 C5_filter_degenerate_inputs). right. discriminate.
Defined.

(** C3 at a record whose title holds lightyear. *)
Lemma C3_witness :
  filterMetadata
    (VArray [mkMetadata None None (Some "Buzz lightyear toy") None None None])
    (VString "light-year") =
  [mkMetadata None None (Some "Buzz lightyear toy") None None None].
Proof.
  apply (proj1 (proj2 (proj2 (proj2 (proj2 (proj2 C3_query_tokenization)))))
           (mkMetadata None None (Some "Buzz lightyear toy") None None None)
           "Buzz " " toy").
  reflexivity.
Defined.

(** C6, as stated, fails: the og:description pattern is found in the head
    (its capture is the empty string), and the description is nevertheless
    taken from the plain description tag. *)
Lemma C6_counterexample :
  getNodeValue (head_of empty_og_description_html) NODES_REG_EXPS.description =
  Some EmptyString /\
  description (getMetadata (VString empty_og_description_html)) = Some "X".
Proof. split; vm_compute; reflexivity. Qed.

(** C6 (amended): the description is the capture of the og:description
    pattern in the head text when that pattern is found with a non-empty
    capture, and otherwise (pattern absent, or found with an empty capture)
    what the plain description pattern gives; a head holding only
    [<meta name="description" content="X">] yields X, for every X free of
    double quotes, [<] and line breaks. *)
Theorem C6_description_falls_back_when_absent_or_empty :
  (forall html,
     html <> EmptyString ->
     description (getMetadata (VString html)) =
     match
       getNodeValue
         (getNodeValue (Some (String_replace html NEWLINE_REGEXP " "))
            NODES_REG_EXPS.head)
         NODES_REG_EXPS.description
     with
     | Some (String c v) => Some (String c v)
     | _ =>
         getNodeValue
           (getNodeValue (Some (String_replace html NEWLINE_REGEXP " "))
              NODES_REG_EXPS.head)
           NODES_REG_EXPS.description2
     end) /\
  (forall X,
     plain_text X = true ->
     description (getMetadata (VString (html_with_description X))) = Some X).
Proof.
  split.
  - intros html H. rewrite getMetadata_string by (apply is_empty_false; exact H).
    unfold head_of. rewrite replace_newline.
    unfold fields_of_head. cbn [description]. unfold or_string.
    destruct (getNodeValue _ NODES_REG_EXPS.description) as [[|c v]|];
      reflexivity.
  - intros X HX. rewrite (html_with_description_fields X HX). reflexivity.
Qed.

(** C6 (amended) at a head with a plain description only. *)
Lemma C6_witness :
  plain_text "Plain text, no markup" = true /\
  description
    (getMetadata (VString (html_with_description "Plain text, no markup"))) =
  Some "Plain text, no markup".
Proof.
  split.
  - reflexivity.
  - apply (proj2 C6_description_falls_back_when_absent_or_empty
             "Plain text, no markup").
    reflexivity.
Defined.

(** C7: for every non-empty HTML string in which the head pattern finds no
    match, [getMetadata] returns the record with all six fields absent. *)
Theorem C7_no_head_span_gives_absent_record (html : string) :
  html <> EmptyString ->
  getNodeValue (Some (String_replace html NEWLINE_REGEXP " "))
    NODES_REG_EXPS.head = None ->
  getMetadata (VString html) = mkMetadata None None None None None None.
Proof.
  intros H Hhead. rewrite getMetadata_string by (apply is_empty_false; exact H).
  unfold head_of. rewrite <- replace_newline, Hhead.
  apply fields_of_no_head.
Qed.

(** C7 at a document without a head. *)
Lemma C7_witness :
  getMetadata (VString "<body><title>No head</title></body>") =
  mkMetadata None None None None None None.
Proof.
  apply (C7_no_head_span_gives_absent_record
           "<body><title>No head</title></body>").
  - discriminate.
  - vm_compute. reflexivity.
Defined.

(** C8: [getMetadata] replaces every line-break sequence (CR LF, CR, LF) of
    its input by one space before any pattern is searched: the text searched
    holds no line break, and a document is extracted as the document with its
    line breaks collapsed is; a title broken across two lines is extracted as
    the title on one line. *)
Theorem C8_line_breaks_collapse_before_search :
  (forall html,
     String_replace html NEWLINE_REGEXP " " = collapse_line_breaks html) /\
  (forall html,
     contains_char is_line_terminator (String_replace html NEWLINE_REGEXP " ") =
     false) /\
  (forall html,
     getMetadata (VString html) =
     getMetadata (VString (collapse_line_breaks html))) /\
  getMetadata
    (VString ("<head><title>My" ++ String CR (String LF "Page</title></head>"))) =
  getMetadata (VString "<head><title>My Page</title></head>") /\
  title (getMetadata (VString "<head><title>My Page</title></head>")) =
  Some "My Page".
Proof.
  split; [|split; [|split; [|split]]].
  - apply replace_newline.
  - intros html. rewrite replace_newline. apply collapse_no_line_break.
  - apply getMetadata_collapse.
  - vm_compute. reflexivity.
  - vm_compute. reflexivity.
Qed.

(** C9, as stated, fails: the record with every field absent is not matched
    by the query null, whose only candidate token is null. *)
Lemma C9_counterexample :
  url absentMetadata = None /\
  getQueryArray "null" = ["null"] /\
  filterMetadata (VArray [absentMetadata]) (VString "null") = [].
Proof. repeat split; vm_compute; reflexivity. Qed.

(** C9 (amended): when a record is flattened for matching, an absent field
    contributes the empty text; the record with every field absent flattens
    to five spaces and is returned for no non-empty query. *)
Theorem C9_absent_fields_contribute_empty_text :
  (forall m,
     formatMetadataValues m =
     toLowerCase
       (remove_chars is_special
          (field_text (url m) ++ " " ++ field_text (siteName m) ++ " " ++
           field_text (title m) ++ " " ++ field_text (description m) ++ " " ++
           keywords_text (keywords m) ++ " " ++ field_text (author m)))) /\
  field_text None = EmptyString /\
  keywords_text None = EmptyString /\
  formatMetadataValues absentMetadata = "     " /\
  (forall records query,
     query <> EmptyString ->
     ~ In absentMetadata (filterMetadata (VArray records) (VString query))).
Proof.
  split; [|split; [|split; [|split]]]; try reflexivity.
  - apply formatMetadataValues_flattened.
  - intros records query H Hin.
    rewrite filterMetadata_query in Hin by exact H.
    apply filter_In in Hin. destruct Hin as [_ Hm].
    unfold doesMetadataMatch in Hm. apply existsb_exists in Hm.
    destruct Hm as [token [Htok Hinc]].
    rewrite getQueryArray_tokens in Htok.
    rewrite (spaces_hold_no_token _ query token) in Hinc;
      [discriminate | reflexivity | exact Htok].
Qed.

(** C9 (amended) at two absent records and the query null. *)
Lemma C9_witness :
  ~ In absentMetadata
      (filterMetadata (VArray [absentMetadata; absentMetadata]) (VString "null")).
Proof.
  apply (proj2 (proj2 (proj2 (proj2 C9_absent_fields_contribute_empty_text)))
           [absentMetadata; absentMetadata] "null").
  discriminate.
Defined.

(** C10, as stated, fails: the head element of this document carries an
    attribute, and the title is extracted all the same, from the text that
    follows the [<head>] inside the script. *)
Lemma C10_counterexample :
  strip_prefix true (qq "<head lang='en'>") head_with_attribute_html <> None /\
  getMetadata (VString head_with_attribute_html) =
  mkMetadata None None (Some "T") None None None.
Proof. split; [vm_compute; discriminate | vm_compute; reflexivity]. Qed.

(** C10 (amended): the head span starts only at the literal text [<head>]
    (any case, no attribute, nothing before the closing bracket): for every
    document in which that text does not occur, as in a document whose only
    head tag carries attributes, [getMetadata] returns the record with all six
    fields absent. *)
Theorem C10_head_tag_must_be_literal :
  (forall html,
     occurs true "<head>" html = false ->
     getMetadata (VString html) = mkMetadata None None None None None None) /\
  getMetadata (VString (qq "<head lang='en'><title>T</title></head>")) =
  mkMetadata None None None None None None.
Proof.
  split.
  - intros html H. destruct (is_empty html) eqn:E.
    + destruct html; [reflexivity | discriminate].
    + rewrite (getMetadata_string html E), (head_of_literal html H).
      apply fields_of_no_head.
  - vm_compute. reflexivity.
Qed.

(** C10 (amended) at a document whose head tag carries an attribute. *)
Lemma C10_witness :
  getMetadata (VString (qq "<HEAD class='x'><title>T</title></HEAD>")) =
  mkMetadata None None None None None None.
Proof.
  apply (proj1 C10_head_tag_must_be_literal
           (qq "<HEAD class='x'><title>T</title></HEAD>")).
  vm_compute. reflexivity.
Defined.

(** * Further properties of the code *)

(** ** Lists and strings *)

Lemma filter_none {A : Type} (f : A -> bool) (l : list A) :
  (forall x, In x l -> f x = false) -> filter f l = [].
Proof.
  induction l as [|x l IH]; intros H; simpl; [reflexivity|].
  rewrite (H x) by (left; reflexivity). apply IH.
  intros y Hy. apply H. right. exact Hy.
Qed.

Lemma filter_idem {A : Type} (f : A -> bool) (l : list A) :
  filter f (filter f l) = filter f l.
Proof.
  induction l as [|x l IH]; simpl; [reflexivity|].
  destruct (f x) eqn:E; simpl; rewrite ?E, IH; reflexivity.
Qed.



Lemma split_char_from (d : ascii) (cur s : string) :
  split_str_from (String d EmptyString) cur 0 s =
  push_front cur (split_on (fun c => Ascii.eqb c d) s).
Proof.
  revert cur. induction s as [|c s IH]; intros cur.
  - simpl. rewrite append_nil_r. reflexivity.
  - cbn [split_str_from prefix String.length pred].
    destruct (ascii_dec d c) as [<-|Hne].
    + assert (Hp : prefix EmptyString s = true) by (destruct s; reflexivity).
      rewrite Hp, IH, push_front_nil. cbn [split_on].
      rewrite Ascii.eqb_refl. simpl. rewrite append_nil_r. reflexivity.
    + assert (Hc : Ascii.eqb c d = false) by (apply Ascii.eqb_neq; congruence).
      rewrite IH,
        (split_on_not_special (fun c => Ascii.eqb c d) c s Hc),
        push_front_push_front.
      reflexivity.
Qed.

Lemma split_comma (s : string) :
  String_split s "," = split_on is_comma s.
Proof.
  unfold String_split. rewrite split_char_from. apply push_front_nil.
Qed.

Lemma split_on_app_sep (p : ascii -> bool) (a : string) (c : ascii) (b : string) :
  p c = true ->
  split_on p (a ++ String c b) = (split_on p a ++ split_on p b)%list.
Proof.
  intros Hc. induction a as [|x a IH]; cbn [append split_on].
  - rewrite Hc. reflexivity.
  - rewrite IH. destruct (p x); [reflexivity|].
    destruct (split_on_cons p a) as [h [t ->]]. reflexivity.
Qed.

Lemma remove_chars_length (p : ascii -> bool) (s : string) :
  String.length (remove_chars p s) <= String.length s.
Proof. induction s as [|c s IH]; simpl; [lia|]. destruct (p c); simpl; lia. Qed.

Lemma remove_chars_clean (p : ascii -> bool) (s : string) :
  contains_char p (remove_chars p s) = false.
Proof.
  induction s as [|c s IH]; simpl; [reflexivity|].
  destruct (p c) eqn:E; simpl; rewrite ?E; exact IH.
Qed.

Lemma remove_chars_none (p : ascii -> bool) (s : string) :
  contains_char p s = false -> remove_chars p s = s.
Proof.
  induction s as [|c s IH]; simpl; [reflexivity|]. intros H.
  apply orb_false_iff in H. destruct H as [Hc Hs].
  rewrite Hc, (IH Hs). reflexivity.
Qed.

Lemma split_on_piece_length (p : ascii -> bool) (s piece : string) :
  In piece (split_on p s) -> String.length piece <= String.length s.
Proof.
  revert piece. induction s as [|c s IH]; intros piece; simpl.
  - intros [<-|[]]. simpl. lia.
  - destruct (p c).
    + intros [<-|H]; [simpl; lia|]. apply IH in H. lia.
    + destruct (split_on_cons p s) as [h [t E]]. rewrite E in *.
      intros [<-|H].
      * simpl. specialize (IH h (or_introl eq_refl)). lia.
      * specialize (IH piece (or_intror H)). lia.
Qed.

Lemma expand_word_length (word token : string) :
  In token (expand_word word) -> String.length token <= String.length word.
Proof.
  unfold expand_word. destruct (contains_char is_special word).
  - intros H. apply in_app_or in H. destruct H as [H|[<-|[<-|[]]]].
    + apply (split_on_piece_length _ _ _ H).
    + apply remove_chars_length.
    + lia.
  - intros [<-|[]]. lia.
Qed.

Lemma candidate_tokens_app (q1 q2 : string) :
  candidate_tokens (q1 ++ " " ++ q2) =
  (candidate_tokens q1 ++ candidate_tokens q2)%list.
Proof.
  unfold candidate_tokens.
  change (q1 ++ " " ++ q2) with (q1 ++ String " " q2).
  rewrite split_on_app_sep by reflexivity.
  rewrite flat_map_app, filter_app. reflexivity.
Qed.

(** ** Lower case leaves the special characters and the spaces alone *)

Lemma is_special_lower (c : ascii) : is_special (lower_char c) = is_special c.
Proof. destruct c as [[] [] [] [] [] [] [] []]; reflexivity. Qed.


Lemma contains_char_lower (p : ascii -> bool) (s : string) :
  (forall c, p (lower_char c) = p c) ->
  contains_char p (toLowerCase s) = contains_char p s.
Proof.
  intros H. induction s as [|c s IH]; simpl; [reflexivity|].
  rewrite H, IH. reflexivity.
Qed.







Lemma filterMetadata_array_string (records : list Metadata) (query : string) :
  filterMetadata (VArray records) (VString query) =
  if is_empty query then records
  else filter (fun m => doesMetadataMatch m (candidate_tokens query)) records.
Proof.
  destruct query as [|c q]; [reflexivity|].
  rewrite filterMetadata_query by discriminate.
  rewrite getQueryArray_tokens. reflexivity.
Qed.

Lemma split_on_remove (p q : ascii -> bool) (s : string) :
  (forall c, q c = true -> p c = false) ->
  split_on p (remove_chars q s) = map (remove_chars q) (split_on p s).
Proof.
  intros H. induction s as [|c s IH]; simpl; [reflexivity|].
  destruct (q c) eqn:Hq.
  - rewrite (H c Hq), IH.
    destruct (split_on_cons p s) as [h [t ->]]. simpl. rewrite Hq. reflexivity.
  - simpl. rewrite IH. destruct (p c); [reflexivity|].
    destruct (split_on_cons p s) as [h [t ->]]. simpl. rewrite Hq. reflexivity.
Qed.

Lemma special_not_space (c : ascii) : is_special c = true -> is_space c = false.
Proof. destruct c as [[] [] [] [] [] [] [] []]; vm_compute; congruence. Qed.

Lemma stripped_word_is_token (word : string) :
  In (remove_chars is_special word) (expand_word word).
Proof.
  unfold expand_word. destruct (contains_char is_special word) eqn:E.
  - apply in_or_app. right. left. reflexivity.
  - rewrite (remove_chars_none _ _ E). left. reflexivity.
Qed.

Lemma stripped_query_tokens (query token : string) :
  In token (candidate_tokens (remove_chars is_special query)) ->
  In token (candidate_tokens query).
Proof.
  unfold candidate_tokens. rewrite !filter_In, !in_flat_map.
  rewrite (split_on_remove is_space is_special query special_not_space).
  intros [[w' [Hw' Ht]] Hlen]. split; [|exact Hlen].
  apply in_map_iff in Hw'. destruct Hw' as [w [<- Hw]].
  exists w. split; [exact Hw|].
  unfold expand_word in Ht at 1. rewrite remove_chars_clean in Ht.
  destruct Ht as [<-|[]]. apply stripped_word_is_token.
Qed.

Lemma formatMetadataValues_clean (m : Metadata) :
  contains_char is_special (formatMetadataValues m) = false.
Proof.
  rewrite formatMetadataValues_flattened. unfold flattened.
  rewrite (contains_char_lower _ _ is_special_lower). apply remove_chars_clean.
Qed.

(** ** The filter *)

(** X1: a query of several words returns the records that match any one of
    them: for non-empty [q1] and [q2], a record is returned for
    [q1 ++ " " ++ q2] exactly when it is returned for [q1] or for [q2]. *)
Theorem filter_words_are_alternatives
  (records : list Metadata) (q1 q2 : string) (m : Metadata) :
  q1 <> EmptyString -> q2 <> EmptyString ->
  (In m (filterMetadata (VArray records) (VString (q1 ++ " " ++ q2))) <->
   In m (filterMetadata (VArray records) (VString q1)) \/
   In m (filterMetadata (VArray records) (VString q2))).
Proof.
  intros H1 H2.
  assert (H12 : is_empty (q1 ++ " " ++ q2) = false) by (destruct q1; reflexivity).
  rewrite !filterMetadata_array_string, H12.
  rewrite (is_empty_false q1 H1), (is_empty_false q2 H2).
  rewrite !filter_In, candidate_tokens_app.
  unfold doesMetadataMatch. rewrite existsb_app, orb_true_iff. tauto.
Qed.

(** X1 at the query cat dog. *)
Lemma filter_words_are_alternatives_witness :
  In (mkMetadata None None (Some "Hot dog") None None None)
    (filterMetadata
       (VArray [absentMetadata; mkMetadata None None (Some "Hot dog") None None None])
       (VString ("cat" ++ " " ++ "dog"))).
Proof.
  apply (proj2 (filter_words_are_alternatives
                  [absentMetadata; mkMetadata None None (Some "Hot dog") None None None]
                  "cat" "dog"
                  (mkMetadata None None (Some "Hot dog") None None None)
                  ltac:(discriminate) ltac:(discriminate))).
  right. vm_compute. tauto.
Defined.


(** X3: each record is judged on its own: the filter of two arrays put
    together is the two filters put together, for every query value. *)
Theorem filter_distributes_over_concat
  (records1 records2 : list Metadata) (query : value) :
  filterMetadata (VArray (records1 ++ records2)) query =
  (filterMetadata (VArray records1) query ++
   filterMetadata (VArray records2) query)%list.
Proof.
  destruct query as [| | b | n | q | l |]; try reflexivity.
  rewrite !filterMetadata_array_string.
  destruct (is_empty q); [reflexivity | apply filter_app].
Qed.

(** X4: filtering twice with one query is filtering once, for every query
    value. *)
Theorem filter_is_idempotent (records : list Metadata) (query : value) :
  filterMetadata (VArray (filterMetadata (VArray records) query)) query =
  filterMetadata (VArray records) query.
Proof.
  destruct query as [| | b | n | q | l |]; try reflexivity.
  rewrite !filterMetadata_array_string.
  destruct (is_empty q); [reflexivity | apply filter_idem].
Qed.

(** X5: a record returned for the query with its special characters removed
    is returned for the query itself (when the stripped query is not empty). *)
Theorem filter_covers_stripped_query
  (records : list Metadata) (query : string) (m : Metadata) :
  String_replace query SPECIAL_CHARS_REGEXP EmptyString <> EmptyString ->
  In m (filterMetadata (VArray records)
          (VString (String_replace query SPECIAL_CHARS_REGEXP EmptyString))) ->
  In m (filterMetadata (VArray records) (VString query)).
Proof.
  rewrite replace_special. intros H.
  assert (Hq : is_empty query = false).
  { destruct query; [exfalso; apply H; reflexivity | reflexivity]. }
  rewrite !filterMetadata_array_string, (is_empty_false _ H), Hq, !filter_In.
  intros [Hin Hm]. split; [exact Hin|].
  unfold doesMetadataMatch in *. apply existsb_exists in Hm.
  destruct Hm as [token [Ht Hinc]]. apply existsb_exists.
  exists token. split; [apply stripped_query_tokens; exact Ht | exact Hinc].
Qed.

(** X5 at the query light-year and a record that holds lightyear. *)
Lemma filter_covers_stripped_query_witness :
  In (mkMetadata None None (Some "Buzz Lightyear") None None None)
    (filterMetadata
       (VArray [mkMetadata None None (Some "Buzz Lightyear") None None None])
       (VString "light-year")).
Proof.
  apply (filter_covers_stripped_query
           [mkMetadata None None (Some "Buzz Lightyear") None None None]
           "light-year").
  - vm_compute. discriminate.
  - vm_compute. tauto.
Defined.

(** X6: a non-empty query all of whose words have at most one code unit
    returns no record. *)
Theorem filter_short_words_match_nothing
  (records : list Metadata) (query : string) :
  query <> EmptyString ->
  (forall word, In word (String_split query " ") -> String.length word <= 1) ->
  filterMetadata (VArray records) (VString query) = [].
Proof.
  intros Hq Hw. rewrite split_space in Hw.
  rewrite filterMetadata_array_string, (is_empty_false _ Hq).
  assert (E : candidate_tokens query = []).
  { unfold candidate_tokens. apply filter_none. intros t Ht.
    apply in_flat_map in Ht. destruct Ht as [w [Hin Ht]].
    apply expand_word_length in Ht. specialize (Hw w Hin).
    apply Nat.ltb_ge. lia. }
  rewrite E. apply filter_none. reflexivity.
Qed.

(** X6 at the query a - b. *)
Lemma filter_short_words_match_nothing_witness :
  filterMetadata
    (VArray [mkMetadata None None (Some "a - b") None None None])
    (VString "a - b") = [].
Proof.
  apply (filter_short_words_match_nothing
           [mkMetadata None None (Some "a - b") None None None] "a - b").
  - discriminate.
  - intros word H. vm_compute in H.
    destruct H as [<-|[<-|[<-|[]]]]; vm_compute; lia.
Defined.

(** X7: the combined match string of a record holds no special character
    and no upper-case letter, so a token that holds a special character (the
    unmodified word of the query) matches no record on its own. *)
Theorem flattened_text_is_clean (m : Metadata) :
  contains_char is_special (formatMetadataValues m) = false /\
  toLowerCase (formatMetadataValues m) = formatMetadataValues m /\
  (forall token,
     contains_char is_special token = true ->
     doesMetadataMatch m [token] = false).
Proof.
  split; [apply formatMetadataValues_clean | split].
  - unfold formatMetadataValues. apply toLowerCase_idem.
  - intros token Ht. unfold doesMetadataMatch. cbn [existsb].
    rewrite orb_false_r.
    destruct (String_includes _ _) eqn:E; [|reflexivity].
    apply String_includes_spec in E. destruct E as [pre [post E]].
    pose proof (formatMetadataValues_clean m) as Hc.
    rewrite E, !contains_char_append,
      (contains_char_lower _ _ is_special_lower), Ht in Hc.
    rewrite orb_true_r in Hc. discriminate.
Qed.

(** ** The extracted values *)

Lemma getMetadata_cases (html : value) :
  getMetadata html = absentMetadata \/
  exists s, html = VString s /\ is_empty s = false /\
            getMetadata html = fields_of_head (head_of s).
Proof.
  destruct html as [| | b | n | s | l |];
    try (left; unfold getMetadata; destruct (_ || _); reflexivity).
  destruct (is_empty s) eqn:E.
  - left. destruct s; [reflexivity | discriminate].
  - right. exists s. repeat split; [exact E | apply getMetadata_string; exact E].
Qed.

Lemma star_lazy_inv (p : ascii -> bool) (k : mcont) (s : string)
  (cap : option string) (res : mresult) :
  star_lazy p k s cap = Some res ->
  exists pre s',
    s = pre ++ s' /\
    contains_char (fun c => negb (p c)) pre = false /\
    k s' cap = Some res.
Proof.
  induction s as [|x s IH]; cbn [star_lazy]; intros H.
  - destruct (k EmptyString cap) eqn:E; [|discriminate].
    exists EmptyString, EmptyString. simpl in *. rewrite E. auto.
  - destruct (k (String x s) cap) eqn:E.
    + exists EmptyString, (String x s). simpl in *. rewrite E. auto.
    + cbn [or_else] in H. destruct (p x) eqn:Hp; [|discriminate].
      destruct (IH H) as [pre [s' [-> [Hpre Hk]]]].
      exists (String x pre), s'. cbn [append contains_char].
      rewrite Hp, Hpre. auto.
Qed.

Lemma repeat_greedy_keeps (Q : option string -> Prop) (step : matcher)
  (k : mcont) :
  keeps Q step ->
  forall fuel s cap res,
    Q cap -> repeat_greedy step k fuel s cap = Some res ->
    exists s' cap', Q cap' /\ k s' cap' = Some res.
Proof.
  intros Hstep. induction fuel as [|fuel IH]; intros s cap res HQ H; simpl in H.
  - exists s, cap. auto.
  - destruct (step s cap (progress s (repeat_greedy step k fuel))) as [x|] eqn:E.
    + simpl in H. injection H as ->.
      destruct (Hstep _ _ _ _ HQ E) as [s1 [cap1 [HQ1 H1]]].
      unfold progress in H1. destruct (Nat.ltb _ _); [|discriminate].
      apply (IH _ _ _ HQ1 H1).
    + simpl in H. exists s, cap. auto.
Qed.

Lemma repeat_lazy_keeps (Q : option string -> Prop) (step : matcher)
  (k : mcont) :
  keeps Q step ->
  forall fuel s cap res,
    Q cap -> repeat_lazy step k fuel s cap = Some res ->
    exists s' cap', Q cap' /\ k s' cap' = Some res.
Proof.
  intros Hstep. induction fuel as [|fuel IH]; intros s cap res HQ H; simpl in H.
  - exists s, cap. auto.
  - destruct (k s cap) as [x|] eqn:E.
    + simpl in H. injection H as ->. exists s, cap. auto.
    + simpl in H.
      destruct (Hstep _ _ _ _ HQ H) as [s1 [cap1 [HQ1 H1]]].
      unfold progress in H1. destruct (Nat.ltb _ _); [|discriminate].
      apply (IH _ _ _ HQ1 H1).
Qed.

Lemma single_keeps (Q : option string -> Prop) (p : ascii -> bool) :
  keeps Q (single p).
Proof.
  intros s cap k res HQ H. destruct s as [|x s']; [discriminate|].
  simpl in H. destruct (p x); [|discriminate]. exists s', cap. auto.
Qed.

Lemma reset_single_line (r : regex) (cap : option string) :
  single_line cap -> single_line (reset r cap).
Proof. intros H. unfold reset. destruct (has_group r); [exact I | exact H]. Qed.

(** A capture [(.*?)] holds no line break. *)
Lemma rmatch_single_line (ic : bool) (r : regex) :
  groups_lazy_dot r = true -> keeps single_line (rmatch ic r).
Proof.
  induction r as [| c | | | cs | r1 IH1 r2 IH2 | r1 IH1 r2 IH2
                 | r1 IH1 | r1 IH1 | r1 IH1 | r1 IH1];
    intros Hg; try apply single_keeps.
  - intros s cap k res HQ H. exists s, cap. auto.
  - cbn [groups_lazy_dot] in Hg. apply andb_true_iff in Hg.
    destruct Hg as [Hg1 Hg2]. intros s cap k res HQ H. cbn [rmatch] in H.
    destruct (IH1 Hg1 _ _ _ _ HQ H) as [s1 [cap1 [HQ1 H1]]].
    apply (IH2 Hg2 _ _ _ _ HQ1 H1).
  - cbn [groups_lazy_dot] in Hg. apply andb_true_iff in Hg.
    destruct Hg as [Hg1 Hg2]. intros s cap k res HQ H. cbn [rmatch] in H.
    destruct (rmatch ic r1 s cap k) as [x|] eqn:E; simpl in H.
    + injection H as ->. apply (IH1 Hg1 _ _ _ _ HQ E).
    + apply (IH2 Hg2 _ _ _ _ HQ H).
  - cbn [groups_lazy_dot] in Hg. intros s cap k res HQ H. cbn [rmatch] in H.
    apply (repeat_greedy_keeps single_line _ k) in H; [exact H | | exact HQ].
    intros s0 cap0 k0 res0 HQ0 H0.
    apply (IH1 Hg _ _ _ _ (reset_single_line r1 cap0 HQ0) H0).
  - cbn [groups_lazy_dot] in Hg. intros s cap k res HQ H. cbn [rmatch] in H.
    apply (repeat_lazy_keeps single_line _ k) in H; [exact H | | exact HQ].
    intros s0 cap0 k0 res0 HQ0 H0.
    apply (IH1 Hg _ _ _ _ (reset_single_line r1 cap0 HQ0) H0).
  - cbn [groups_lazy_dot] in Hg. intros s cap k res HQ H. cbn [rmatch] in H.
    destruct (rmatch ic r1 s (reset r1 cap) (progress s k)) as [x|] eqn:E;
      simpl in H.
    + injection H as ->.
      destruct (IH1 Hg _ _ _ _ (reset_single_line r1 cap HQ) E)
        as [s1 [cap1 [HQ1 H1]]].
      unfold progress in H1. destruct (Nat.ltb _ _); [|discriminate].
      exists s1, cap1. auto.
    + exists s, cap. auto.
  - intros s cap k res HQ H.
    destruct r1 as [| | | | | | | | r1' | |]; try discriminate Hg.
    destruct r1'; try discriminate Hg.
    rewrite rmatch_direct_eq in H. cbn [rmatch_direct atom_pred] in H.
    apply star_lazy_inv in H. destruct H as [pre [s' [-> [Hpre Hk]]]].
    rewrite substring_0_append in Hk.
    exists s', (Some pre). split; [|exact Hk].
    cbn [single_line]. rewrite <- Hpre. apply contains_char_ext.
    intros c. symmetry. apply negb_involutive.
Qed.

Lemma exec_single_line (re : RegExp) (s : string) (result : MatchResult) :
  groups_lazy_dot (source re) = true ->
  RegExp_exec re s = Some result -> single_line (group1 result).
Proof.
  intros Hg. unfold RegExp_exec. generalize 0.
  assert (Hm : forall t rest cap,
             match_at re t = Some (rest, cap) -> single_line cap).
  { intros t rest cap E. unfold match_at in E.
    destruct (rmatch_single_line _ _ Hg t None accept _ I E)
      as [s1 [cap1 [HQ H1]]].
    unfold accept in H1. injection H1 as _ <-. exact HQ. }
  induction s as [|c s IH]; intros i; cbn [exec_at];
    destruct (match_at re _) as [[rest cap]|] eqn:E; try discriminate;
    try (apply IH); intros H; injection H as <-; cbn [group1];
    apply (Hm _ _ _ E).
Qed.

Lemma getNodeValue_single_line (v : option string) (re : RegExp) :
  In re node_patterns -> single_line (getNodeValue v re).
Proof.
  intros Hin. unfold getNodeValue.
  destruct (RegExp_exec re (ToString v)) as [result|] eqn:E; [|exact I].
  apply (exec_single_line re _ _) in E; [exact E|].
  simpl in Hin.
  repeat (destruct Hin as [<-|Hin]; [reflexivity|]). destruct Hin.
Qed.

(** X8: the entries of an extracted keywords sequence are never empty and
    hold no comma. *)
Theorem keywords_entries_are_clean (html : value) (l : list string) (k : string) :
  keywords (getMetadata html) = Some l ->
  In k l ->
  k <> EmptyString /\ contains_char is_comma k = false.
Proof.
  destruct (getMetadata_cases html) as [-> | [s [_ [_ ->]]]]; [discriminate|].
  unfold fields_of_head. cbn [keywords].
  destruct (getNodeValue _ NODES_REG_EXPS.keywords) as [v|]; [|discriminate].
  cbn [option_map or_array]. intros H. injection H as <-.
  change (split_str_from "," EmptyString 0 v) with (String_split v ",").
  rewrite filter_In, split_comma. intros [Hin Hne]. split.
  - intros ->. discriminate.
  - apply (split_on_pieces_clean _ _ _ Hin).
Qed.

(** X8 at a head whose keywords tag lists cat, two commas and dog. *)
Lemma keywords_entries_are_clean_witness :
  "dog" <> EmptyString /\ contains_char is_comma "dog" = false.
Proof.
  apply (keywords_entries_are_clean
           (VString (qq "<head><meta name='keywords' content='cat,,dog,'></head>"))
           ["cat"; "dog"] "dog").
  - vm_compute. reflexivity.
  - right. left. reflexivity.
Defined.

(** X9: no extracted value holds a line break: every string field of the
    record, and every entry of its keywords, is free of CR and LF. *)
Theorem extracted_values_are_single_line (html : value) :
  single_line (url (getMetadata html)) /\
  single_line (siteName (getMetadata html)) /\
  single_line (title (getMetadata html)) /\
  single_line (description (getMetadata html)) /\
  single_line (author (getMetadata html)) /\
  (forall l k,
     keywords (getMetadata html) = Some l -> In k l ->
     contains_char is_line_terminator k = false).
Proof.
  destruct (getMetadata_cases html) as [-> | [s [_ [_ ->]]]].
  - repeat split; try exact I. discriminate.
  - unfold fields_of_head. cbn [url siteName title description author keywords].
    assert (Hn : forall re, In re node_patterns ->
                            single_line (getNodeValue (head_of s) re))
      by (intros re; apply getNodeValue_single_line).
    repeat split; try (apply Hn; simpl; tauto).
    + pose proof (Hn NODES_REG_EXPS.description ltac:(simpl; tauto)) as H1.
      pose proof (Hn NODES_REG_EXPS.description2 ltac:(simpl; tauto)) as H2.
      unfold or_string.
      destruct (getNodeValue _ NODES_REG_EXPS.description) as [v|];
        [destruct (is_empty v)|]; assumption.
    + pose proof (Hn NODES_REG_EXPS.keywords ltac:(simpl; tauto)) as H1.
      destruct (getNodeValue _ NODES_REG_EXPS.keywords) as [v|]; [|discriminate].
      cbn [option_map or_array]. intros l k H. injection H as <-.
      change (split_str_from "," EmptyString 0 v) with (String_split v ",").
      rewrite filter_In, split_comma. intros [Hin _].
      apply (contains_char_piece _ _ _ _ H1 Hin).
Qed.

(** ** Patterns of the form opening literal, [(.*?)], closing literal *)



Lemma starts_within_fails (ic : bool) (p pre rest : string)
  (cap' : option string) (k : mcont) :
  starts_within ic p pre rest = false ->
  fails_along (fun s _ => rmatch_direct ic (lit p) s cap' k) None pre rest.
Proof.
  induction pre as [|c pre IH]; cbn [starts_within fails_along]; intros H;
    [exact I|].
  destruct (strip_prefix ic p (String c pre ++ rest)) eqn:E; [discriminate|].
  split; [|auto]. rewrite <- rmatch_direct_eq, rmatch_lit, E. reflexivity.
Qed.

Lemma starts_within_no_match (re : RegExp) (o : string) (r : regex)
  (pre rest : string) :
  source re = Seq (lit o) r ->
  starts_within (ignoreCase re) o pre rest = false ->
  fails_along (fun s _ => match_at re s) None pre rest.
Proof.
  intros Hsrc. induction pre as [|c pre IH];
    cbn [starts_within fails_along]; intros H; [exact I|].
  destruct (strip_prefix (ignoreCase re) o (String c pre ++ rest)) eqn:E;
    [discriminate|].
  split; [|auto]. unfold match_at. rewrite Hsrc. cbn [rmatch].
  rewrite rmatch_lit, E. reflexivity.
Qed.

Lemma enclosed_match (o c O X C rest : string) :
  strip_prefix true o O = Some EmptyString ->
  strip_prefix true c C = Some EmptyString ->
  contains_char is_line_terminator X = false ->
  starts_within true c X (C ++ rest) = false ->
  rmatch true (Seq (lit o) (Seq (Group (StarLazy Dot)) (lit c)))
    (O ++ X ++ C ++ rest) None accept =
  Some (rest, Some X).
Proof.
  intros HO HC HX Hc. rewrite rmatch_direct_eq.
  rewrite seq_lit_step by exact HO.
  apply group_lazy_run; [exact HX | | apply lit_step; exact HC].
  intros cap'. apply starts_within_fails. exact Hc.
Qed.

Lemma enclosed_value (re : RegExp) (o c pre O X C rest : string) :
  source re = Seq (lit o) (Seq (Group (StarLazy Dot)) (lit c)) ->
  ignoreCase re = true ->
  strip_prefix true o O = Some EmptyString ->
  strip_prefix true c C = Some EmptyString ->
  contains_char is_line_terminator X = false ->
  starts_within true o pre (O ++ X ++ C ++ rest) = false ->
  starts_within true c X (C ++ rest) = false ->
  getNodeValue (Some (pre ++ O ++ X ++ C ++ rest)) re = Some X.
Proof.
  intros Hsrc Hic HO HC HX Ho Hc.
  unfold getNodeValue, RegExp_exec. cbn [ToString].
  rewrite exec_at_skip.
  - assert (E : match_at re (O ++ X ++ C ++ rest) = Some (rest, Some X)).
    { unfold match_at. rewrite Hsrc, Hic. apply enclosed_match; assumption. }
    rewrite (exec_at_here _ _ _ _ _ E). reflexivity.
  - apply (starts_within_no_match re o _ _ _ Hsrc). rewrite Hic. exact Ho.
Qed.


(** X10: the title found in a text is what stands between the first
    opening title tag and the first closing title tag after it, the tags in
    any case. *)
Theorem title_is_between_the_first_tags (pre O T C post : string) :
  strip_prefix true "<title>" O = Some EmptyString ->
  strip_prefix true "</title>" C = Some EmptyString ->
  contains_char is_line_terminator T = false ->
  starts_within true "<title>" pre (O ++ T ++ C ++ post) = false ->
  starts_within true "</title>" T (C ++ post) = false ->
  getNodeValue (Some (pre ++ O ++ T ++ C ++ post)) NODES_REG_EXPS.title =
  Some T.
Proof.
  apply (enclosed_value NODES_REG_EXPS.title "<title>" "</title>");
    reflexivity.
Qed.

(** X10 at a text with two title elements. *)
Lemma title_is_between_the_first_tags_witness :
  getNodeValue
    (Some ("<meta>" ++ "<TITLE>" ++ "One <b>" ++ "</Title>" ++
           "<title>Two</title>"))
    NODES_REG_EXPS.title =
  Some "One <b>".
Proof.
  apply (title_is_between_the_first_tags
           "<meta>" "<TITLE>" "One <b>" "</Title>" "<title>Two</title>");
    reflexivity.
Defined.



(** ** A head with all six tags *)

Lemma strip_prefix_refl (ic : bool) (p : string) :
  strip_prefix ic p p = Some EmptyString.
Proof.
  induction p as [|c p IH]; [reflexivity|]. cbn [strip_prefix].
  unfold matches_char. rewrite Ascii.eqb_refl. exact IH.
Qed.

Lemma head_free_append (p : ascii -> bool) (a t : string) :
  is_empty a = false -> head_free p a = true -> head_free p (a ++ t) = true.
Proof. destruct a; [discriminate | intros _ H; exact H]. Qed.

Lemma meta_match (re : RegExp) (attr V rest : string) :
  source re =
    Seq (lit "<meta") (Seq (Star Space)
      (Seq (lit attr) (Seq (Star Space)
         (Seq (lit (qq "content='"))
            (Seq (Group (StarLazy Dot)) meta_tail))))) ->
  ignoreCase re = true ->
  is_empty attr = false ->
  head_free is_whitespace attr = true ->
  plain_text V = true ->
  match_at re
    ("<meta" ++ " " ++ attr ++ " " ++ qq "content='" ++ V ++ qq "'>" ++ rest) =
  Some (rest, Some V).
Proof.
  intros Hsrc Hic Hne Hhf HV.
  destruct (plain_text_parts V HV) as [Hnl [Hdq Hlt]].
  rewrite match_at_direct, Hsrc, Hic.
  rewrite seq_lit_step by reflexivity.
  apply seq_spaces_step;
    [reflexivity | apply head_free_append; assumption |].
  rewrite seq_lit_step by apply strip_prefix_refl.
  apply seq_spaces_step; [reflexivity | reflexivity |].
  rewrite seq_lit_step by reflexivity.
  apply group_lazy_run; [exact Hnl | | reflexivity].
  intros cap'. apply fails_along_chars with (q := fun c => Ascii.eqb c dquote).
  - intros c s Hc. apply meta_tail_needs_dquote. exact Hc.
  - exact Hdq.
Qed.

Lemma exec_at_value (re : RegExp) (i : nat) (s rest V : string) :
  match_at re s = Some (rest, Some V) ->
  match exec_at re i s with
  | Some result => group1 result
  | None => None
  end = Some V.
Proof. intros H. rewrite (exec_at_here _ _ _ _ _ H). reflexivity. Qed.

Lemma exec_at_nowhere (re : RegExp) (s : string) :
  forall i j, exec_at re i s = None -> exec_at re j s = None.
Proof.
  induction s as [|c s IH]; intros i j; cbn [exec_at];
    destruct (match_at re _) as [[rest cap]|]; try discriminate; auto.
  apply IH.
Qed.

Lemma starts_within_chars (ic : bool) (c0 : ascii) (p X rest : string) :
  contains_char (matches_char ic c0) X = false ->
  starts_within ic (String c0 p) X rest = false.
Proof.
  induction X as [|x X IH]; cbn [contains_char starts_within append strip_prefix];
    intros H; [reflexivity|].
  apply orb_false_iff in H. destruct H as [Hx HX]. rewrite Hx. auto.
Qed.

Lemma no_lt_no_match (X : string) :
  contains_char (fun c => Ascii.eqb c "<") X = false ->
  contains_char (matches_char true "<") X = false.
Proof.
  intros H.
  rewrite (contains_char_ext (matches_char true "<")
             (fun c => Ascii.eqb c "<") X matches_lt).
  exact H.
Qed.

(** A piece of the head text holds no closing head tag: a plain text, or a
    fixed text checked by running the matcher. *)
Ltac chunk_has_no_close_head :=
  first
    [ apply fails_along_chars with (q := fun c => Ascii.eqb c "<");
      [ intros ? ? ?; apply close_head_needs_lt; assumption | assumption ]
    | apply fails_alongb_sound; vm_compute; reflexivity ].

Section FullHead.

Variables U S T D K A : string.
Hypothesis HU : plain_text U = true.
Hypothesis HS : plain_text S = true.
Hypothesis HT : plain_text T = true.
Hypothesis HD : plain_text D = true.
Hypothesis HK : plain_text K = true.
Hypothesis HA : plain_text A = true.

Lemma full_head_line_free :
  contains_char is_line_terminator (full_head U S T D K A) = false.
Proof.
  destruct (plain_text_parts U HU) as [H1 _].
  destruct (plain_text_parts S HS) as [H2 _].
  destruct (plain_text_parts T HT) as [H3 _].
  destruct (plain_text_parts D HD) as [H4 _].
  destruct (plain_text_parts K HK) as [H5 _].
  destruct (plain_text_parts A HA) as [H6 _].
  unfold full_head. rewrite !contains_char_append, H1, H2, H3, H4, H5, H6.
  reflexivity.
Qed.

Lemma full_html_head :
  head_of (full_html U S T D K A) = Some (full_head U S T D K A).
Proof.
  destruct (plain_text_parts U HU) as [_ [_ H1]].
  destruct (plain_text_parts S HS) as [_ [_ H2]].
  destruct (plain_text_parts T HT) as [_ [_ H3]].
  destruct (plain_text_parts D HD) as [_ [_ H4]].
  destruct (plain_text_parts K HK) as [_ [_ H5]].
  destruct (plain_text_parts A HA) as [_ [_ H6]].
  unfold head_of, getNodeValue, RegExp_exec. cbn [ToString].
  rewrite collapse_fixed
    by (unfold full_html; rewrite !contains_char_append, full_head_line_free;
        reflexivity).
  apply exec_at_value with (rest := EmptyString).
  rewrite match_at_direct. cbn [source ignoreCase NODES_REG_EXPS.head].
  change (seq_of _) with
    (Seq (lit "<head>") (Seq (Group (StarLazy Dot)) (lit "</head>"))).
  unfold full_html. rewrite seq_lit_step by reflexivity.
  apply group_lazy_run; [apply full_head_line_free | | reflexivity].
  intros cap'. unfold full_head.
  do 17 (apply fails_along_app; [chunk_has_no_close_head|]).
  chunk_has_no_close_head.
Qed.

End FullHead.

(** A piece of the text holds no place where the pattern matches. *)
Ltac chunk_fails_at_pattern :=
  match goal with
  | |- fails_along (fun s _ => match_at ?re s) _ _ _ =>
      first
        [ apply fails_along_chars with (q := fun c => Ascii.eqb c "<");
          [ intros ? ? ?; apply node_pattern_needs_lt;
            [simpl; tauto | assumption]
          | assumption ]
        | apply fails_along_ext with
            (k := fun s _ =>
                    rmatch_direct (ignoreCase re) (source re) s None accept);
          [ intros ? ?; symmetry; apply match_at_direct
          | apply fails_alongb_sound; vm_compute; reflexivity ] ]
  end.

(** The search for a field pattern passes over the first [n] pieces of the
    head. *)
Tactic Notation "field_after" integer(n) :=
  unfold getNodeValue, RegExp_exec, full_head; cbn [ToString];
  do n (rewrite exec_at_skip by chunk_fails_at_pattern).

Section FullHeadFields.

Variables U S T D K A : string.
Hypothesis HU : plain_text U = true.
Hypothesis HS : plain_text S = true.
Hypothesis HT : plain_text T = true.
Hypothesis HD : plain_text D = true.
Hypothesis HK : plain_text K = true.
Hypothesis HA : plain_text A = true.

Lemma full_head_fields :
  fields_of_head (Some (full_head U S T D K A)) =
  mkMetadata (Some U) (Some S) (Some T)
    (if is_empty D then None else Some D)
    (Some (filter (fun keyword => negb (is_empty keyword)) (String_split K ",")))
    (Some A).
Proof.
  destruct (plain_text_parts U HU) as [_ [_ H1]].
  destruct (plain_text_parts S HS) as [_ [_ H2]].
  destruct (plain_text_parts T HT) as [H3' [_ H3]].
  destruct (plain_text_parts D HD) as [_ [_ H4]].
  destruct (plain_text_parts K HK) as [_ [_ H5]].
  destruct (plain_text_parts A HA) as [_ [_ H6]].
  assert (Eurl : getNodeValue (Some (full_head U S T D K A))
                   NODES_REG_EXPS.url = Some U).
  { field_after 0. eapply exec_at_value.
    exact (meta_match NODES_REG_EXPS.url (qq "property='og:url'") U _
             eq_refl eq_refl eq_refl eq_refl HU). }
  assert (Esite : getNodeValue (Some (full_head U S T D K A))
                    NODES_REG_EXPS.siteName = Some S).
  { field_after 3. eapply exec_at_value.
    exact (meta_match NODES_REG_EXPS.siteName (qq "property='og:site_name'")
             S _ eq_refl eq_refl eq_refl eq_refl HS). }
  assert (Etitle : getNodeValue (Some (full_head U S T D K A))
                     NODES_REG_EXPS.title = Some T).
  { field_after 6. eapply exec_at_value. unfold match_at.
    cbn [source ignoreCase NODES_REG_EXPS.title].
    change (seq_of _) with
      (Seq (lit "<title>") (Seq (Group (StarLazy Dot)) (lit "</title>"))).
    apply enclosed_match; [reflexivity | reflexivity | exact H3' |].
    apply starts_within_chars, no_lt_no_match. exact H3. }
  assert (Edesc : getNodeValue (Some (full_head U S T D K A))
                    NODES_REG_EXPS.description = Some D).
  { field_after 9. eapply exec_at_value.
    exact (meta_match NODES_REG_EXPS.description
             (qq "property='og:description'")
             D _ eq_refl eq_refl eq_refl eq_refl HD). }
  assert (Ekey : getNodeValue (Some (full_head U S T D K A))
                   NODES_REG_EXPS.keywords = Some K).
  { field_after 12. eapply exec_at_value.
    exact (meta_match NODES_REG_EXPS.keywords (qq "name='keywords'") K _
             eq_refl eq_refl eq_refl eq_refl HK). }
  assert (Eauthor : getNodeValue (Some (full_head U S T D K A))
                      NODES_REG_EXPS.author = Some A).
  { field_after 15. eapply exec_at_value.
    exact (meta_match NODES_REG_EXPS.author (qq "name='author'") A _
             eq_refl eq_refl eq_refl eq_refl HA). }
  assert (Edesc2 : getNodeValue (Some (full_head U S T D K A))
                     NODES_REG_EXPS.description2 = None).
  { field_after 17.
    assert (E : exec_at NODES_REG_EXPS.description2 0 (qq "'>") = None)
      by (vm_compute; reflexivity).
    rewrite (exec_at_nowhere _ _ 0 _ E). reflexivity. }
  unfold fields_of_head.
  rewrite Eurl, Esite, Etitle, Edesc, Ekey, Eauthor, Edesc2.
  cbn [or_string or_array option_map]. destruct D; reflexivity.
Qed.

End FullHeadFields.

Lemma split_on_none (p : ascii -> bool) (s : string) :
  contains_char p s = false -> split_on p s = [s].
Proof.
  induction s as [|c s IH]; simpl; [reflexivity|]. intros H.
  apply orb_false_iff in H. destruct H as [Hc Hs].
  rewrite Hc, (IH Hs). reflexivity.
Qed.

Lemma good_keyword_parts (k : string) :
  good_keyword k = true ->
  plain_text k = true /\ contains_char is_comma k = false /\ is_empty k = false.
Proof.
  unfold good_keyword. intros H.
  apply andb_true_iff in H. destruct H as [H H3].
  apply andb_true_iff in H. destruct H as [H1 H2].
  apply negb_true_iff in H2, H3. auto.
Qed.

(** Joined by commas and split again, good keywords come back. *)
Lemma keywords_round_trip (l : list string) :
  forallb good_keyword l = true ->
  filter (fun keyword => negb (is_empty keyword))
    (String_split (Array_join l ",") ",") = l.
Proof.
  rewrite split_comma. unfold Array_join.
  induction l as [|x l IH]; [reflexivity|]. cbn [forallb]. intros H.
  apply andb_true_iff in H. destruct H as [Hx Hl].
  destruct (good_keyword_parts x Hx) as [_ [Hc Hne]].
  destruct l as [|y l].
  - cbn [String.concat]. rewrite (split_on_none _ _ Hc). cbn [filter].
    rewrite Hne. reflexivity.
  - change (String.concat "," (x :: y :: l))
      with (x ++ String "," (String.concat "," (y :: l))).
    rewrite split_on_app_sep by reflexivity.
    rewrite filter_app, (IH Hl), (split_on_none _ _ Hc). cbn [filter].
    rewrite Hne. reflexivity.
Qed.

Lemma plain_text_join (l : list string) :
  forallb good_keyword l = true -> plain_text (Array_join l ",") = true.
Proof.
  unfold Array_join, plain_text.
  induction l as [|x l IH]; [reflexivity|]. cbn [forallb]. intros H.
  apply andb_true_iff in H. destruct H as [Hx Hl].
  destruct (good_keyword_parts x Hx) as [Hp _]. unfold plain_text in Hp.
  apply negb_true_iff in Hp. specialize (IH Hl). apply negb_true_iff in IH.
  apply negb_true_iff.
  destruct l as [|y l]; [exact Hp|].
  change (String.concat "," (x :: y :: l))
    with (x ++ String "," (String.concat "," (y :: l))).
  rewrite contains_char_append, Hp. cbn [contains_char orb].
  rewrite IH. reflexivity.
Qed.

(** X12: a document whose head holds the six tags, well formed and in plain
    text, is extracted exactly: each field is the content of its tag (an
    empty description is absent), and the keywords listed between commas come
    back as the sequence they were. *)
Theorem full_document_is_extracted (U S T D A : string) (l : list string) :
  plain_text U = true -> plain_text S = true -> plain_text T = true ->
  plain_text D = true -> plain_text A = true ->
  forallb good_keyword l = true ->
  getMetadata (VString (full_html U S T D (Array_join l ",") A)) =
  mkMetadata (Some U) (Some S) (Some T)
    (if is_empty D then None else Some D) (Some l) (Some A).
Proof.
  intros HU HS HT HD HA Hl. pose proof (plain_text_join l Hl) as HK.
  rewrite getMetadata_string by reflexivity.
  rewrite (full_html_head U S T D _ A HU HS HT HD HK HA).
  rewrite (full_head_fields U S T D _ A HU HS HT HD HK HA).
  rewrite (keywords_round_trip l Hl). reflexivity.
Qed.

(** X12 at a small document. *)
Lemma full_document_is_extracted_witness :
  getMetadata
    (VString
       (full_html "http://x.y/" "Site" "A title" "About" (Array_join ["cat"; "dog"] ",")
          "Ann")) =
  mkMetadata (Some "http://x.y/") (Some "Site") (Some "A title") (Some "About")
    (Some ["cat"; "dog"]) (Some "Ann").
Proof.
  apply (full_document_is_extracted "http://x.y/" "Site" "A title" "About" "Ann"
           ["cat"; "dog"]);
    reflexivity.
Defined.

(** ** A record that holds a token is returned *)





(** ** The meta tags: letter case, white space and the closing slash *)

Lemma ws_not_matched (c x : ascii) :
  matches_char true c x = true -> is_whitespace c = false ->
  is_whitespace x = false.
Proof.
  destruct x as [[] [] [] [] [] [] [] []]; try (intros; reflexivity);
    destruct c as [[] [] [] [] [] [] [] []]; vm_compute; congruence.
Qed.

Lemma ci_head_free (p P t : string) :
  strip_prefix true p P = Some EmptyString ->
  is_empty p = false -> head_free is_whitespace p = true ->
  head_free is_whitespace (P ++ t) = true.
Proof.
  destruct p as [|c p]; [discriminate|].
  destruct P as [|x P]; [discriminate|].
  cbn [strip_prefix append head_free]. intros H _ Hc.
  destruct (matches_char true c x) eqn:E; [|discriminate].
  apply negb_true_iff in Hc. rewrite (ws_not_matched c x E Hc). reflexivity.
Qed.

Lemma matches_within_fails (re : RegExp) (pre rest : string) :
  matches_within re pre rest = false ->
  fails_along (fun s _ => match_at re s) None pre rest.
Proof.
  induction pre as [|c pre IH]; cbn [matches_within fails_along]; intros H;
    [exact I|].
  destruct (match_at re (String c pre ++ rest)); [discriminate | auto].
Qed.

Lemma all_whitespace_spec (ws : string) :
  all_whitespace ws = true ->
  contains_char (fun c => negb (is_whitespace c)) ws = false.
Proof. unfold all_whitespace. apply negb_true_iff. Qed.

Lemma meta_tail_run (ws slash rest : string) (cap : option string) :
  all_whitespace ws = true ->
  slash = EmptyString \/ slash = "/" ->
  rmatch_direct true meta_tail (qq "'" ++ ws ++ slash ++ ">" ++ rest) cap accept =
  Some (rest, cap).
Proof.
  intros Hws Hslash. unfold meta_tail.
  change (seq_of _) with
    (Seq (lit (qq "'")) (Seq (Star Space) (Seq (Opt (Chr "/")) (lit ">")))).
  rewrite seq_lit_step by reflexivity.
  apply seq_spaces_step; [apply all_whitespace_spec; exact Hws | |];
    destruct Hslash as [-> | ->]; reflexivity.
Qed.

Lemma meta_match_any_form (re : RegExp) (attr M ws1 At ws2 Cn V ws3 slash rest : string) :
  In (re, attr) meta_patterns ->
  strip_prefix true "<meta" M = Some EmptyString ->
  strip_prefix true attr At = Some EmptyString ->
  strip_prefix true (qq "content='") Cn = Some EmptyString ->
  all_whitespace ws1 = true -> all_whitespace ws2 = true ->
  all_whitespace ws3 = true ->
  slash = EmptyString \/ slash = "/" ->
  contains_char is_line_terminator V = false ->
  contains_char (fun c => Ascii.eqb c dquote) V = false ->
  match_at re
    (M ++ ws1 ++ At ++ ws2 ++ Cn ++ V ++ qq "'" ++ ws3 ++ slash ++ ">" ++ rest) =
  Some (rest, Some V).
Proof.
  intros Hin HM HAt HCn H1 H2 H3 Hslash Hnl Hdq.
  assert (Hre : source re =
                  Seq (lit "<meta") (Seq (Star Space)
                    (Seq (lit attr) (Seq (Star Space)
                       (Seq (lit (qq "content='"))
                          (Seq (Group (StarLazy Dot)) meta_tail))))) /\
                ignoreCase re = true /\
                is_empty attr = false /\ head_free is_whitespace attr = true).
  { simpl in Hin.
    repeat (destruct Hin as [E|Hin];
            [injection E as <- <-; repeat split; reflexivity|]).
    destruct Hin. }
  destruct Hre as [Hsrc [Hic [Hne Hhf]]].
  rewrite match_at_direct, Hsrc, Hic.
  rewrite seq_lit_step by exact HM.
  apply seq_spaces_step;
    [apply all_whitespace_spec; exact H1
    | apply (ci_head_free attr); assumption |].
  rewrite seq_lit_step by exact HAt.
  apply seq_spaces_step;
    [apply all_whitespace_spec; exact H2
    | apply (ci_head_free (qq "content='")); [exact HCn | reflexivity | reflexivity] |].
  rewrite seq_lit_step by exact HCn.
  apply group_lazy_run; [exact Hnl | | apply meta_tail_run; assumption].
  intros cap'. apply fails_along_chars with (q := fun c => Ascii.eqb c dquote).
  - intros c s Hc. apply meta_tail_needs_dquote. exact Hc.
  - exact Hdq.
Qed.

(** X14: a meta tag is recognised whatever the letter case of its fixed
    text, with any white space (or none) between its parts and before the
    closing bracket, and with or without a closing slash; the value is the
    content of the first tag at which the pattern matches, whatever follows
    it. *)
Theorem meta_tag_is_recognised_in_any_form
  (re : RegExp) (attr pre M ws1 At ws2 Cn V ws3 slash rest : string) :
  In (re, attr) meta_patterns ->
  strip_prefix true "<meta" M = Some EmptyString ->
  strip_prefix true attr At = Some EmptyString ->
  strip_prefix true (qq "content='") Cn = Some EmptyString ->
  all_whitespace ws1 = true -> all_whitespace ws2 = true ->
  all_whitespace ws3 = true ->
  slash = EmptyString \/ slash = "/" ->
  contains_char is_line_terminator V = false ->
  contains_char (fun c => Ascii.eqb c dquote) V = false ->
  matches_within re pre
    (M ++ ws1 ++ At ++ ws2 ++ Cn ++ V ++ qq "'" ++ ws3 ++ slash ++ ">" ++ rest) =
  false ->
  getNodeValue
    (Some (pre ++ M ++ ws1 ++ At ++ ws2 ++ Cn ++ V ++ qq "'" ++ ws3 ++ slash ++
           ">" ++ rest))
    re =
  Some V.
Proof.
  intros Hin HM HAt HCn H1 H2 H3 Hslash Hnl Hdq Hpre.
  unfold getNodeValue, RegExp_exec. cbn [ToString].
  rewrite exec_at_skip by (apply matches_within_fails; exact Hpre).
  eapply exec_at_value.
  apply (meta_match_any_form re attr); assumption.
Qed.

(** X14 at an upper-case author tag with spaces, a closing slash and a second
    author tag after it. *)
Lemma meta_tag_is_recognised_in_any_form_witness :
  getNodeValue
    (Some ("<title>t</title>" ++ "<META" ++ EmptyString ++ qq "NAME='Author'" ++ "   " ++
           qq "CONTENT='" ++ "Ann <a@b.c>" ++ qq "'" ++ " " ++ "/" ++ ">" ++
           qq "<meta name='author' content='Bob'>"))
    NODES_REG_EXPS.author =
  Some "Ann <a@b.c>".
Proof.
  apply (meta_tag_is_recognised_in_any_form
           NODES_REG_EXPS.author (qq "name='author'")
           "<title>t</title>" "<META" EmptyString (qq "NAME='Author'") "   "
           (qq "CONTENT='") "Ann <a@b.c>" " " "/"
           (qq "<meta name='author' content='Bob'>"));
    try (vm_compute; reflexivity).
  - simpl. tauto.
  - right. reflexivity.
Defined.

(** ** Words, not phrases *)

(** X15: no candidate token holds a space: a query is matched word by word,
    never as a phrase. *)
Theorem tokens_hold_no_space (query token : string) :
  In token (getQueryArray query) -> contains_char is_space token = false.
Proof.
  rewrite getQueryArray_tokens. intros H.
  apply (candidate_tokens_shape query token H).
Qed.

(** X15 at the query hot dog. *)
Lemma tokens_hold_no_space_witness : contains_char is_space "dog" = false.
Proof.
  apply (tokens_hold_no_space "hot dog" "dog"). vm_compute. tauto.
Defined.

(** X16: the order of the words of a query does not matter. *)
Theorem filter_ignores_word_order (records : list Metadata) (q1 q2 : string) :
  filterMetadata (VArray records) (VString (q1 ++ " " ++ q2)) =
  filterMetadata (VArray records) (VString (q2 ++ " " ++ q1)).
Proof.
  assert (H : forall a b, is_empty (a ++ " " ++ b) = false)
    by (intros a b; destruct a; reflexivity).
  rewrite !filterMetadata_array_string, !H, !candidate_tokens_app.
  apply filter_ext. intros m. unfold doesMetadataMatch.
  rewrite !existsb_app. apply orb_comm.
Qed.
